(** * StaticArchive: a shallow embedding of the C++ container engine

    Source files embedded here:
    - [StaticArchive/Cpp/src/core/helpers.h++]  (width macros, [conv<T>])
    - [StaticArchive/Cpp/src/core/static.h++]   (enums, structs, [Flags] union,
      the [StaticArchive] class)
    - [StaticArchive/Cpp/src/core/static.cpp]   (constructors, signature block,
      entry header codec, accessors)

    Conventions.
    - Unsigned integers ([uint8_t] .. [uint64_t]) are [N]; where the source
      narrows a value the wrap-around is written out.
    - Bytes on the stream are [Byte.byte]; a [std::string] is a [list byte].
    - A member function is a state transformer over the object ([this]); the
      [std::fstream] the object points to is a field of the object.
    - Memory the program reads without having written it (a local array
      without initialiser, a [new char[n]] buffer and the bytes behind it)
      is an argument of the function that reads it.
    - [option] marks the places where the program leaves what is
      modelled: a scan or comparison that runs past the memory given, a
      cast to an enumeration of a value that names no enumerator.  [None]
      is "no defined result". *)

From Stdlib Require Import List NArith ZArith Bool Lia.
From Stdlib Require Import Strings.Byte.
Import ListNotations.

Local Open Scope N_scope.

(* ===================================================================== *)
(** ** Bytes and integer conversions *)
(* ===================================================================== *)

(** [(char)n] / [(uint8_t)n]: the low eight bits. *)
Definition to_char (n : N) : byte :=
  match Byte.of_N (n mod 256) with
  | Some b => b
  | None => x00
  end.

(* ===================================================================== *)
(** ** helpers.h++ *)
(* ===================================================================== *)

Definition BYTE : nat := 1.
Definition WORD : nat := 2.
Definition DWORD : nat := 4.
Definition QWORD : nat := 8.

(** [union conv { T value; uint8_t data[sizeof(T)]; }] overlays an integer
    with its object representation.  Which byte of [data] holds the low
    bits is the host's byte order, so the model carries it as a parameter. *)
Inductive ByteOrder : Type := LittleEndian | BigEndian.

Fixpoint le_bytes (width : nat) (value : N) : list byte :=
  match width with
  | O => []
  | S w => to_char value :: le_bytes w (value / 256)
  end.

Fixpoint le_value (data : list byte) : N :=
  match data with
  | [] => 0
  | b :: rest => Byte.to_N b + 256 * le_value rest
  end.

(** [conv<T> c{value}; ... c.data]: the [width = sizeof(T)] bytes of [value]. *)
Definition conv_data (order : ByteOrder) (width : nat) (value : N) : list byte :=
  match order with
  | LittleEndian => le_bytes width value
  | BigEndian => rev (le_bytes width value)
  end.

(** [c.value] after [c.data] was filled. *)
Definition conv_value (order : ByteOrder) (data : list byte) : N :=
  match order with
  | LittleEndian => le_value data
  | BigEndian => le_value (rev data)
  end.

(** [conv<T> c{}]: value-initialised, every byte of [data] is zero. *)
Definition conv_zero (width : nat) : list byte := repeat x00 width.

(* ===================================================================== *)
(** ** std::fstream *)
(* ===================================================================== *)

(** The part of [std::fstream] the archive uses: the file's bytes, the one
    position a [basic_filebuf] shares between reading and writing, and
    whether [failbit] is set.  The operations below set [eofbit] only
    together with [failbit], so one flag is enough: once it is set every
    later operation is a no-op ([seekg]/[seekp] included), as the sentry
    objects of the library prescribe. *)
Record fstream : Type := mkStream {
  content : list byte;
  pos : nat;
  failed : bool
}.

Definition EOF : Z := (-1)%Z.

(** [seekg(p)] / [seekp(p)]. *)
Definition fstream_seek (p : nat) (s : fstream) : fstream :=
  if failed s then s
  else mkStream (content s) p false.

(** [read(buf, n)]: the bytes extracted (at most [n]); a short read sets
    [failbit | eofbit]. *)
Definition fstream_read (n : nat) (s : fstream) : list byte * fstream :=
  if failed s then ([], s)
  else
    let got := firstn n (skipn (pos s) (content s)) in
    (got, mkStream (content s) (pos s + length got) (length got <? n)%nat).

(** [get()]: the next byte as an [int], or [EOF]. *)
Definition fstream_get (s : fstream) : Z * fstream :=
  if failed s then (EOF, s)
  else
    match nth_error (content s) (pos s) with
    | Some b => (Z.of_N (Byte.to_N b), mkStream (content s) (S (pos s)) false)
    | None => (EOF, mkStream (content s) (pos s) true)
    end.

(** [write(buf, n)]: overwrites from the position on and grows the file;
    a position past the end leaves a gap of zero bytes. *)
Definition fstream_write (bytes : list byte) (s : fstream) : fstream :=
  if failed s then s
  else
    match bytes with
    | [] => s
    | _ =>
        mkStream
          (firstn (pos s) (content s)
             ++ repeat x00 (pos s - length (content s))
             ++ bytes
             ++ skipn (pos s + length bytes) (content s))
          (pos s + length bytes)
          false
    end.

(** [put(c)]. *)
Definition fstream_put (c : byte) (s : fstream) : fstream :=
  fstream_write [c] s.

(** What a buffer holds after [read(buf, n)] put [got] at its start. *)
Definition fill (buf got : list byte) : list byte :=
  got ++ skipn (length got) buf.

(* ===================================================================== *)
(** ** static.h++ *)
(* ===================================================================== *)

(** [STATIC_FLAG_*]: the option bits a caller passes to a constructor. *)
Definition STATIC_FLAG_VERBOSE : N := 128.        (* 0b10000000 *)
Definition STATIC_FLAG_ONLY_NAMES : N := 64.      (* 0b01000000 *)
Definition STATIC_FLAG_IGNORE_ERRORS : N := 32.   (* 0b00100000 *)
Definition STATIC_FLAG_WRITE_CRC32 : N := 16.     (* 0b00010000 *)
Definition STATIC_FLAG_DISABLE_CHECKS : N := 8.   (* 0b00001000 *)

Definition STATIC_MAGIC : list byte :=
  [x91; xde; xee; x9c; x80; x5c; x23; xe6].

Inductive SizeMode : Type := SizeMode16 | SizeMode32 | SizeMode64.

Inductive Mode : Type := ModeRead | ModeAppend | ModeCreate.

(** The enumerators' values, [(char)sizeMode]. *)
Definition SizeMode_to_N (m : SizeMode) : N :=
  match m with
  | SizeMode16 => 0
  | SizeMode32 => 1
  | SizeMode64 => 2
  end.

(** [(SizeMode)i] for an [int]; [None] when [i] is the value of no
    enumerator (no [switch] of the source has a case for it). *)
Definition SizeMode_of_int (i : Z) : option SizeMode :=
  match i with
  | 0%Z => Some SizeMode16
  | 1%Z => Some SizeMode32
  | 2%Z => Some SizeMode64
  | _ => None
  end.

Record FileInfo : Type := mkFileInfo {
  fi_name : list byte;      (* const char *name *)
  fi_size : N;              (* uint64_t size *)
  fi_crc : N;               (* uint32_t crc *)
  fi_offset : N;            (* uint64_t offset *)
  fi_dataOffset : N         (* uint64_t dataOffset *)
}.

Record EntryHeader : Type := mkEntryHeader {
  name : list byte;         (* std::string name *)
  crc : N;                  (* uint32_t crc *)
  dataSize : N              (* uint64_t dataSize *)
}.

(** [union Flags { struct FlagsStruct { uint8_t verbose : 1; ... } f;
    uint8_t v; }] *)
Module Flags.

Record FlagsStruct : Type := mkFlagsStruct {
  verbose : bool;
  onlyNames : bool;
  ignoreErrors : bool;
  writeCrc : bool;
  checks : bool
}.

(** [Flags flags_{flags}].  A braced initialiser of a union initialises
    its first member, here the struct [f]; [flags] is no [FlagsStruct],
    so the braces around [f]'s own initialisers are taken as elided and
    [flags] initialises [f]'s first field, [verbose], which keeps one
    bit of it.  The fields without an initialiser are zero. *)
Definition init (flags : byte) : FlagsStruct :=
  {| verbose := N.odd (Byte.to_N flags);
     onlyNames := false;
     ignoreErrors := false;
     writeCrc := false;
     checks := false |}.

(** The struct as it reads when the byte [v] is the member that was
    written, under a layout that gives the first declared field the
    lowest bit.  No function of the source writes [v]. *)
Definition of_v (v : byte) : FlagsStruct :=
  {| verbose := N.testbit (Byte.to_N v) 0;
     onlyNames := N.testbit (Byte.to_N v) 1;
     ignoreErrors := N.testbit (Byte.to_N v) 2;
     writeCrc := N.testbit (Byte.to_N v) 3;
     checks := N.testbit (Byte.to_N v) 4 |}.

End Flags.

(** The data members of [class StaticArchive]; [stream] is the
    [std::fstream] the member pointer refers to. *)
Record StaticArchive : Type := mkStaticArchive {
  generalPurposeField : N;  (* uint32_t *)
  checks : bool;
  stream : fstream;
  sizeMode : SizeMode;
  mode : Mode;
  fileCount : N;            (* uint64_t *)
  writeCrc : bool;
  closed : bool
}.

Inductive exception : Type :=
| InvalidNameSizeException (size : N).

(* --------------------------------------------------------------------- *)
(** *** Member functions as state transformers *)

Definition M (A : Type) : Type := StaticArchive -> A * StaticArchive.

Definition ret {A : Type} (x : A) : M A := fun this => (x, this).

Definition bind {A B : Type} (m : M A) (k : A -> M B) : M B :=
  fun this => let (x, this') := m this in k x this'.

Declare Scope member_scope.
Delimit Scope member_scope with member.
Notation "x <- m ;; k" := (bind m (fun x => k))
  (at level 61, m at next level, right associativity) : member_scope.
Notation "m ;; k" := (bind m (fun _ => k))
  (at level 61, right associativity) : member_scope.

Definition set_stream (s : fstream) : M unit := fun this =>
  (tt, mkStaticArchive (generalPurposeField this) (checks this) s
         (sizeMode this) (mode this) (fileCount this) (writeCrc this)
         (closed this)).

Definition set_generalPurposeField (v : N) : M unit := fun this =>
  (tt, mkStaticArchive v (checks this) (stream this)
         (sizeMode this) (mode this) (fileCount this) (writeCrc this)
         (closed this)).

Definition set_checks (v : bool) : M unit := fun this =>
  (tt, mkStaticArchive (generalPurposeField this) v (stream this)
         (sizeMode this) (mode this) (fileCount this) (writeCrc this)
         (closed this)).

Definition set_sizeMode (v : SizeMode) : M unit := fun this =>
  (tt, mkStaticArchive (generalPurposeField this) (checks this) (stream this)
         v (mode this) (fileCount this) (writeCrc this) (closed this)).

Definition set_mode (v : Mode) : M unit := fun this =>
  (tt, mkStaticArchive (generalPurposeField this) (checks this) (stream this)
         (sizeMode this) v (fileCount this) (writeCrc this) (closed this)).

Definition set_fileCount (v : N) : M unit := fun this =>
  (tt, mkStaticArchive (generalPurposeField this) (checks this) (stream this)
         (sizeMode this) (mode this) v (writeCrc this) (closed this)).

Definition set_writeCrc (v : bool) : M unit := fun this =>
  (tt, mkStaticArchive (generalPurposeField this) (checks this) (stream this)
         (sizeMode this) (mode this) (fileCount this) v (closed this)).

(** Reading a data member. *)
Definition member {A : Type} (f : StaticArchive -> A) : M A := fun this =>
  (f this, this).

(** [stream->op(...)] *)
Definition seekg (p : nat) : M unit := fun this =>
  set_stream (fstream_seek p (stream this)) this.

Definition seekp (p : nat) : M unit := seekg p.

Definition stream_read (n : nat) : M (list byte) := fun this =>
  let (got, s) := fstream_read n (stream this) in
  (got, snd (set_stream s this)).

Definition stream_get : M Z := fun this =>
  let (c, s) := fstream_get (stream this) in
  (c, snd (set_stream s this)).

Definition stream_write (bytes : list byte) : M unit := fun this =>
  set_stream (fstream_write bytes (stream this)) this.

Definition stream_put (c : byte) : M unit := fun this =>
  set_stream (fstream_put c (stream this)) this.

(* ===================================================================== *)
(** ** static.cpp *)
(* ===================================================================== *)

Local Open Scope member_scope.

(** [strncmp(s1, s2, n)] over the bytes each array holds: bytes compare as
    [unsigned char] and the comparison stops behind a NUL.  The library
    fixes the sign of the result only; the difference of the first two
    bytes that differ stands for it here (the one caller asks whether it
    is zero).  The result is [None] when the comparison would read a byte
    a list does not have. *)
Fixpoint strncmp (s1 s2 : list byte) (n : nat) : option Z :=
  match n with
  | O => Some 0%Z
  | S n' =>
      match s1, s2 with
      | c1 :: r1, c2 :: r2 =>
          if Byte.eqb c1 c2
          then if Byte.eqb c1 x00 then Some 0%Z else strncmp r1 r2 n'
          else Some (Z.of_N (Byte.to_N c1) - Z.of_N (Byte.to_N c2))%Z
      | _, _ => None
      end
  end.

(** [std::string name = nameBuffer], the constructor from a C string: the
    bytes before the first NUL; [None] when the memory given holds no NUL. *)
Fixpoint c_str (mem : list byte) : option (list byte) :=
  match mem with
  | [] => None
  | c :: rest =>
      if Byte.eqb c x00 then Some []
      else option_map (cons c) (c_str rest)
  end.

(** [(bool)i] *)
Definition bool_of_int (i : Z) : bool := negb (i =? 0)%Z.

(** [(uint8_t)i] for the [int] that [get()] returns ([EOF] becomes 255). *)
Definition uint8_of_int (i : Z) : N := Z.to_N (i mod 256).

Section Host.

(** The byte order of the machine the program runs on. *)
Variable order : ByteOrder.

(* --------------------------------------------------------------------- *)
(** *** Constructors *)

(** The object before a constructor body runs: the default member
    initialisers of the class, and for the two members that have none
    ([generalPurposeField], [checks]) whatever the storage held. *)
Definition default_members (gpf0 : N) (checks0 : bool) (stream0 : fstream)
  : StaticArchive :=
  {| generalPurposeField := gpf0;
     checks := checks0;
     stream := stream0;
     sizeMode := SizeMode64;
     mode := ModeRead;
     fileCount := 0;
     writeCrc := true;
     closed := false |}.

(** [setup(path, mode_, sizeMode_)]; [file] is the stream that
    [new std::fstream(path, binary | in | out)] yields. *)
Definition setup (file : fstream) (mode_ : Mode) (sizeMode_ : SizeMode)
  : M unit :=
  set_stream file ;;
  set_mode mode_ ;;
  set_sizeMode sizeMode_.

(** [StaticArchive(path)] *)
Definition StaticArchive_path (gpf0 : N) (checks0 : bool) (file : fstream)
  : StaticArchive :=
  snd (setup file ModeRead SizeMode64 (default_members gpf0 checks0 file)).

(** [StaticArchive(path, mode)] *)
Definition StaticArchive_path_mode (gpf0 : N) (checks0 : bool)
    (file : fstream) (mode : Mode) : StaticArchive :=
  snd (setup file mode SizeMode64 (default_members gpf0 checks0 file)).

(** [StaticArchive(path, mode, sizeMode)] *)
Definition StaticArchive_path_mode_size (gpf0 : N) (checks0 : bool)
    (file : fstream) (mode : Mode) (sizeMode : SizeMode) : StaticArchive :=
  snd (setup file mode sizeMode (default_members gpf0 checks0 file)).

(** [StaticArchive(path, mode, sizeMode, flags)] *)
Definition StaticArchive_path_flags (gpf0 : N) (checks0 : bool)
    (file : fstream) (mode : Mode) (sizeMode : SizeMode) (flags : byte)
  : StaticArchive :=
  snd ((setup file mode sizeMode ;;
        let flags_ := Flags.init flags in
        set_checks (Flags.checks flags_) ;;
        set_writeCrc (Flags.writeCrc flags_))
         (default_members gpf0 checks0 file)).

(** [StaticArchive(stream, mode, sizeMode, flags)] *)
Definition StaticArchive_stream_flags (gpf0 : N) (checks0 : bool)
    (stream : fstream) (mode : Mode) (sizeMode : SizeMode) (flags : byte)
  : StaticArchive :=
  snd ((set_mode mode ;;
        set_stream stream ;;
        set_sizeMode sizeMode ;;
        let flags_ := Flags.init flags in
        set_checks (Flags.checks flags_) ;;
        set_writeCrc (Flags.writeCrc flags_))
         (default_members gpf0 checks0 stream)).

(* --------------------------------------------------------------------- *)
(** *** append *)

(** Both overloads of [append] have an empty body: nothing is written,
    no member changes, and control flows off the end of a function that
    returns a [FileInfo].  The value the caller receives is therefore not
    determined by the program; the model takes it as [returned]. *)
Definition append {T : Type} (returned : FileInfo)
    (name : list byte) (data : T) : M FileInfo :=
  ret returned.

(** A caller that issues one [append] per element of [calls]; each
    element gives the value that call returns, the name and the data. *)
Fixpoint append_all (calls : list (FileInfo * (list byte * list byte)))
  : M (list FileInfo) :=
  match calls with
  | [] => ret []
  | (returned, (name, data)) :: rest =>
      file <- append returned name data ;;
      files <- append_all rest ;;
      ret (file :: files)
  end.

(* --------------------------------------------------------------------- *)
(** *** Signature block *)

(** [buffer0]: what the eight bytes of the local array [buffer] hold
    before the read (the array is not initialised). *)
Definition checkSignature (buffer0 : list byte) : M (option bool) :=
  seekg 0 ;;
  let magic := STATIC_MAGIC in
  got <- stream_read QWORD ;;
  let buffer := fill (firstn QWORD buffer0) got in
  ret (option_map bool_of_int (strncmp magic buffer QWORD)).

(** The second [read] names [gp.data] (four bytes) for the eight bytes of
    the file count: they leave the stream, [fc] is never written and
    keeps the zero of its initialiser.  The bytes that land behind
    [gp.data] are not modelled (see [loadSignature_overrun]).
    The result is [None] when the size-mode byte is no enumerator. *)
Definition loadSignature : M (option unit) :=
  seekg QWORD ;;
  let gp := conv_zero DWORD in
  got <- stream_read DWORD ;;
  let gp := fill gp got in
  set_generalPurposeField (conv_value order gp) ;;
  let fc := conv_zero QWORD in
  _ <- stream_read QWORD ;;
  set_fileCount (conv_value order fc) ;;
  sm <- stream_get ;;
  wc <- stream_get ;;
  match SizeMode_of_int sm with
  | Some m =>
      set_sizeMode m ;;
      set_writeCrc (bool_of_int wc) ;;
      ret (Some tt)
  | None =>
      set_writeCrc (bool_of_int wc) ;;
      ret None
  end.

(** How many bytes [loadSignature]'s second [read] stores behind the end
    of [gp.data]. *)
Definition loadSignature_overrun (this : StaticArchive) : nat :=
  let this1 := snd ((seekg QWORD ;; stream_read DWORD) this) in
  length (fst (stream_read QWORD this1)) - DWORD.

Definition writeSignature : M unit :=
  seekp 0 ;;
  let magic := STATIC_MAGIC in
  stream_write magic ;;
  gpf <- member generalPurposeField ;;
  stream_write (conv_data order DWORD gpf) ;;
  fcount <- member fileCount ;;
  stream_write (conv_data order QWORD fcount) ;;
  sm <- member sizeMode ;;
  stream_put (to_char (SizeMode_to_N sm)) ;;
  wc <- member writeCrc ;;
  stream_put (to_char (N.b2n wc)).

(* --------------------------------------------------------------------- *)
(** *** Entry header *)

(** [mem]: what the memory at [nameBuffer] holds before the read, that is
    the [ns] bytes [new char[ns]] returned (not initialised) and the bytes
    behind them.  The buffer gets no terminating NUL, so the string
    constructor scans on into those bytes when the name holds no NUL. *)
Definition readHeader (mem : list byte) : M (option EntryHeader) :=
  c <- stream_get ;;
  let ns := N.to_nat (uint8_of_int c) in
  got <- stream_read ns ;;
  let nameBuffer := fill mem got in
  let name := c_str nameBuffer in
  let crc := conv_zero DWORD in
  got <- stream_read DWORD ;;
  let crc := fill crc got in
  sm <- member sizeMode ;;
  dataSize <-
    match sm with
    | SizeMode64 =>
        let ds := conv_zero QWORD in
        got <- stream_read QWORD ;;
        let ds := fill ds got in
        ret (conv_value order ds)
    | SizeMode32 =>
        let ds := conv_zero DWORD in
        got <- stream_read DWORD ;;
        let ds := fill ds got in
        ret (conv_value order ds)
    | SizeMode16 =>
        let ds := conv_zero WORD in
        let dataSize := conv_value order ds in
        _ <- stream_read WORD ;;
        ret dataSize
    end ;;
  ret (option_map
         (fun name => mkEntryHeader name (conv_value order crc) dataSize)
         name).

(** [inl e]: the exception [e] was thrown. *)
Definition writeheader (name : list byte) (crc : N) (dataSize : N)
  : M (exception + unit) :=
  if (256 <? length name)%nat
  then ret (inl (InvalidNameSizeException (N.of_nat (length name))))
  else
    stream_put (to_char (N.of_nat (length name))) ;;
    stream_write name ;;
    stream_write (conv_data order DWORD crc) ;;
    stream_write (conv_data order QWORD dataSize) ;;
    ret (inr tt).

(* --------------------------------------------------------------------- *)
(** *** Properties *)

Definition getSizeMode (this : StaticArchive) : SizeMode := sizeMode this.

Definition getFileCount (this : StaticArchive) : N := fileCount this.

Definition getWriteCrc (this : StaticArchive) : bool := writeCrc this.

Definition getClosed (this : StaticArchive) : bool := closed this.

Definition getMode (this : StaticArchive) : Mode := mode this.

Definition getMaxFilesize (this : StaticArchive) : N :=
  match sizeMode this with
  | SizeMode16 => 0xffff
  | SizeMode32 => 0xffffffff
  | SizeMode64 => 0xffffffffffffffff
  end.

(* --------------------------------------------------------------------- *)
(** *** read *)

Inductive ReadError : Type := ArchiveClosed | CrcMismatch | IOFailure.

(** Modelled from the spec: [read] is declared in static.h++ (four
    overloads) and defined in no file of the repository.  Following the
    design document: after a closed handle every operation fails with
    [ArchiveClosed]; otherwise [read] seeks to [dataOffset], copies
    [size] bytes into the sink, and with checks enabled fails with
    [CrcMismatch] when the checksum of the bytes read differs from the
    stored one, the sink keeping the bytes.  The result is the sink and
    either an error or the number of bytes written. *)
Definition read (checksum : list byte -> N) (file : FileInfo)
  : M (list byte * (ReadError + N)) :=
  isClosed <- member closed ;;
  if isClosed then ret ([], inl ArchiveClosed)
  else
    seekg (N.to_nat (fi_dataOffset file)) ;;
    sink <- stream_read (N.to_nat (fi_size file)) ;;
    checksEnabled <- member checks ;;
    if negb (N.of_nat (length sink) =? fi_size file)
    then ret (sink, inl IOFailure)
    else if checksEnabled && negb (checksum sink =? fi_crc file)
    then ret (sink, inl CrcMismatch)
    else ret (sink, inr (N.of_nat (length sink))).

End Host.

Local Close Scope member_scope.

(* ===================================================================== *)
(** ** Vocabulary of the statements *)
(* ===================================================================== *)

(** The bytes from the position to the end of the file. *)
Definition remaining (s : fstream) : list byte := skipn (pos s) (content s).

Definition advance (n : nat) (s : fstream) : fstream :=
  mkStream (content s) (pos s + n) (failed s).

(** The object after its stream moved [n] bytes on. *)
Definition skip (n : nat) (this : StaticArchive) : StaticArchive :=
  snd (set_stream (advance n (stream this)) this).

(** The object after [bytes] were appended to its file. *)
Definition extended (bytes : list byte) (this : StaticArchive)
  : StaticArchive :=
  snd (set_stream
         (mkStream (content (stream this) ++ bytes)
            (pos (stream this) + length bytes) false) this).

(** The number of bytes [readHeader] takes from the stream for the data
    size. *)
Definition dataSize_width (m : SizeMode) : nat :=
  match m with
  | SizeMode16 => WORD
  | SizeMode32 => DWORD
  | SizeMode64 => QWORD
  end.

(** The 22 bytes of the signature block as [writeSignature] lays them
    out for the members of [this]. *)
Definition signature_bytes (order : ByteOrder) (this : StaticArchive)
  : list byte :=
  STATIC_MAGIC
    ++ conv_data order DWORD (generalPurposeField this)
    ++ conv_data order QWORD (fileCount this)
    ++ [to_char (SizeMode_to_N (sizeMode this));
        to_char (N.b2n (writeCrc this))].

(** [b] is [a] with the stream at another position or in another state:
    the bytes of the file and every other member are those of [a]. *)
Definition only_stream_moved (a b : StaticArchive) : Prop :=
  exists p f,
    b = snd (set_stream (mkStream (content (stream a)) p f) a).


(** The public member [size] of the exception class. *)
Definition exception_size (e : exception) : N :=
  match e with
  | InvalidNameSizeException size => size
  end.

(* ===================================================================== *)
(** ** Concrete runs *)
(* ===================================================================== *)

Definition a_txt : list byte := ["a"; "."; "t"; "x"; "t"]%byte.
Definition hello : list byte := ["h"; "e"; "l"; "l"; "o"]%byte.

Definition empty_file : fstream := mkStream [] 0 false.

(** A new, empty archive file in 16-bit mode. *)
Definition fresh16 : StaticArchive :=
  mkStaticArchive 0 false empty_file SizeMode16 ModeCreate 0 true false.

(** A file that holds the magic constant and nothing else. *)
Definition magic_only : StaticArchive :=
  mkStaticArchive 0 false (mkStream STATIC_MAGIC 0 false)
    SizeMode64 ModeRead 0 true false.

(** A handle that counts three entries, about to write its signature
    into a new file. *)
Definition three_entries : StaticArchive :=
  mkStaticArchive 0x01020304 true empty_file SizeMode32 ModeCreate 3 true
    false.

(** An archive in 32-bit mode positioned at the header of an entry
    "a.txt" whose size field stores 5. *)
Definition header32_of_5 : StaticArchive :=
  mkStaticArchive 0 false
    (mkStream ([x05] ++ a_txt ++ [xdd; xcc; xbb; xaa]
                 ++ [x05; x00; x00; x00]) 0 false)
    SizeMode32 ModeRead 1 true false.

(** An archive in 16-bit mode positioned at the header of an entry
    "a.txt" whose size field stores 5. *)
Definition header16_of_5 : StaticArchive :=
  mkStaticArchive 0 false
    (mkStream ([x05] ++ a_txt ++ [xdd; xcc; xbb; xaa] ++ [x05; x00]) 0 false)
    SizeMode16 ModeRead 1 true false.

(** An archive positioned at the header of an entry whose three-byte
    name is 'a', 0x00, 'b'. *)
Definition header_with_NUL : StaticArchive :=
  mkStaticArchive 0 false
    (mkStream ([x03] ++ ["a"; x00; "b"]%byte ++ [x00; x00; x00; x00]
                 ++ [x05; x00; x00; x00]) 0 false)
    SizeMode32 ModeRead 1 true false.

(* ===================================================================== *)
(** ** Bytes and [conv]: basic facts *)
(* ===================================================================== *)

Lemma to_N_to_char (n : N) : Byte.to_N (to_char n) = n mod 256.
Proof.
  unfold to_char.
  destruct (Byte.of_N (n mod 256)) as [b|] eqn:E.
  - now apply Byte.to_of_N in E.
  - apply Byte.of_N_None_iff in E.
    pose proof (N.mod_upper_bound n 256). lia.
Qed.

Lemma to_char_to_N (b : byte) : to_char (Byte.to_N b) = b.
Proof.
  unfold to_char.
  rewrite N.mod_small by (pose proof (Byte.to_N_bounded b); lia).
  now rewrite Byte.of_to_N.
Qed.

Lemma length_le_bytes (w : nat) (v : N) : length (le_bytes w v) = w.
Proof.
  revert v; induction w as [|w IH]; intro v; simpl; [reflexivity|].
  now rewrite IH.
Qed.

Lemma length_conv_data (order : ByteOrder) (w : nat) (v : N) :
  length (conv_data order w v) = w.
Proof.
  destruct order; simpl.
  - apply length_le_bytes.
  - rewrite length_rev. apply length_le_bytes.
Qed.

Lemma le_value_le_bytes (w : nat) (v : N) :
  le_value (le_bytes w v) = v mod 256 ^ N.of_nat w.
Proof.
  revert v; induction w as [|w IH]; intro v.
  - simpl. now rewrite N.mod_1_r.
  - cbn [le_bytes le_value]. rewrite IH, to_N_to_char.
    rewrite Nat2N.inj_succ, N.pow_succ_r'.
    now rewrite N.Div0.mod_mul_r.
Qed.

(** What [conv<T>] gives back for the bytes it produced: the value, cut to
    the width of [T]. *)
Lemma conv_value_conv_data (order : ByteOrder) (w : nat) (v : N) :
  conv_value order (conv_data order w v) = v mod 256 ^ N.of_nat w.
Proof.
  destruct order; simpl.
  - apply le_value_le_bytes.
  - rewrite rev_involutive. apply le_value_le_bytes.
Qed.

(** A value that fits the width of [T] passes unchanged through the
    bytes of [conv<T>], on either byte order. *)
Lemma conv_roundtrip (order : ByteOrder) (w : nat) (v : N) :
  v < 256 ^ N.of_nat w ->
  length (conv_data order w v) = w
  /\ conv_value order (conv_data order w v) = v.
Proof.
  intro Hv. split; [apply length_conv_data|].
  rewrite conv_value_conv_data. now apply N.mod_small.
Qed.

Lemma conv_roundtrip_witness :
  length (conv_data BigEndian DWORD 0x01020304) = DWORD
  /\ conv_value BigEndian (conv_data BigEndian DWORD 0x01020304)
     = 0x01020304.
Proof.
  apply (conv_roundtrip BigEndian DWORD 0x01020304). reflexivity.
Defined.

Lemma le_value_zero (w : nat) : le_value (repeat x00 w) = 0.
Proof.
  induction w as [|w IH]; simpl; [reflexivity|].
  rewrite IH. reflexivity.
Qed.

Lemma conv_value_conv_zero (order : ByteOrder) (w : nat) :
  conv_value order (conv_zero w) = 0.
Proof.
  unfold conv_zero. destruct order; simpl.
  - apply le_value_zero.
  - rewrite rev_repeat. apply le_value_zero.
Qed.

Lemma fill_full (buf got : list byte) :
  (length buf <= length got)%nat -> fill buf got = got.
Proof.
  intro H. unfold fill. rewrite skipn_all2 by exact H. apply app_nil_r.
Qed.

(* ===================================================================== *)
(** ** The stream: reading where the bytes are there *)
(* ===================================================================== *)

Lemma remaining_advance (n : nat) (s : fstream) :
  remaining (advance n s) = skipn n (remaining s).
Proof.
  unfold remaining, advance; simpl.
  rewrite skipn_skipn. f_equal. apply Nat.add_comm.
Qed.

Lemma fstream_read_ok (n : nat) (s : fstream) :
  failed s = false ->
  (n <= length (remaining s))%nat ->
  fstream_read n s = (firstn n (remaining s), advance n s).
Proof.
  intros Hf Hn. unfold fstream_read, advance. rewrite Hf.
  fold (remaining s).
  rewrite length_firstn, Nat.min_l by exact Hn.
  now rewrite Nat.ltb_irrefl.
Qed.

Lemma fstream_get_ok (s : fstream) (b : byte) (r : list byte) :
  failed s = false ->
  remaining s = b :: r ->
  fstream_get s = (Z.of_N (Byte.to_N b), advance 1 s).
Proof.
  intros Hf Hr. unfold fstream_get, advance. rewrite Hf.
  assert (E : nth_error (content s) (pos s) = Some b).
  { rewrite <- hd_error_skipn. fold (remaining s). now rewrite Hr. }
  rewrite E. now rewrite Nat.add_1_r.
Qed.

Lemma stream_read_ok (n : nat) (this : StaticArchive) :
  failed (stream this) = false ->
  (n <= length (remaining (stream this)))%nat ->
  stream_read n this = (firstn n (remaining (stream this)), skip n this).
Proof.
  intros Hf Hn. unfold stream_read.
  now rewrite fstream_read_ok.
Qed.

Lemma stream_get_ok (this : StaticArchive) (b : byte) (r : list byte) :
  failed (stream this) = false ->
  remaining (stream this) = b :: r ->
  stream_get this = (Z.of_N (Byte.to_N b), skip 1 this).
Proof.
  intros Hf Hr. unfold stream_get.
  now rewrite (fstream_get_ok _ b r).
Qed.

Lemma remaining_skip (n : nat) (this : StaticArchive) :
  remaining (stream (skip n this)) = skipn n (remaining (stream this)).
Proof. apply remaining_advance. Qed.

Lemma failed_skip (n : nat) (this : StaticArchive) :
  failed (stream (skip n this)) = failed (stream this).
Proof. reflexivity. Qed.

Lemma sizeMode_skip (n : nat) (this : StaticArchive) :
  sizeMode (skip n this) = sizeMode this.
Proof. reflexivity. Qed.

Lemma skip_skip (n m : nat) (this : StaticArchive) :
  skip m (skip n this) = skip (n + m) this.
Proof.
  unfold skip, advance; simpl. now rewrite Nat.add_assoc.
Qed.

Lemma uint8_of_int_byte (b : byte) :
  uint8_of_int (Z.of_N (Byte.to_N b)) = Byte.to_N b.
Proof.
  unfold uint8_of_int.
  pose proof (Byte.to_N_bounded b).
  rewrite Z.mod_small by lia. apply N2Z.id.
Qed.

Lemma firstn_length_app {A : Type} (l1 l2 : list A) :
  firstn (length l1) (l1 ++ l2) = l1.
Proof.
  induction l1 as [|x l1 IH]; simpl; [reflexivity|]. now rewrite IH.
Qed.

Lemma skipn_length_app {A : Type} (l1 l2 : list A) :
  skipn (length l1) (l1 ++ l2) = l2.
Proof.
  induction l1 as [|x l1 IH]; simpl; [reflexivity|]. exact IH.
Qed.

(* ===================================================================== *)
(** ** readHeader on a header that is there *)
(* ===================================================================== *)

(** One run of [readHeader] over the bytes of a complete header: the
    length byte, [nm], the four bytes [crc4] and the size field [sz]. *)
Lemma readHeader_run (order : ByteOrder) (mem : list byte)
    (this : StaticArchive) (nm crc4 sz tail : list byte) :
  failed (stream this) = false ->
  remaining (stream this)
    = to_char (N.of_nat (length nm)) :: nm ++ crc4 ++ sz ++ tail ->
  (length nm <= 255)%nat ->
  length crc4 = DWORD ->
  length sz = dataSize_width (sizeMode this) ->
  readHeader order mem this
  = (option_map
       (fun n =>
          mkEntryHeader n (conv_value order crc4)
            match sizeMode this with
            | SizeMode16 => 0
            | _ => conv_value order sz
            end)
       (c_str (fill mem nm)),
     skip (1 + length nm + DWORD + dataSize_width (sizeMode this)) this).
Proof.
  intros Hf Hr Hn Hc Hs.
  assert (R1 : remaining (stream (skip 1 this)) = nm ++ crc4 ++ sz ++ tail).
  { rewrite remaining_skip, Hr. reflexivity. }
  assert (R2 : remaining (stream (skip (1 + length nm) this))
               = crc4 ++ sz ++ tail).
  { rewrite <- skip_skip, remaining_skip, R1. apply skipn_length_app. }
  assert (R3 : remaining (stream (skip (1 + length nm + DWORD) this))
               = sz ++ tail).
  { rewrite <- skip_skip, remaining_skip, R2, <- Hc.
    apply skipn_length_app. }
  assert (E1 : stream_read (length nm) (skip 1 this)
               = (nm, skip (1 + length nm) this)).
  { rewrite stream_read_ok.
    - now rewrite R1, firstn_length_app, skip_skip.
    - exact Hf.
    - rewrite R1, length_app. lia. }
  assert (E2 : stream_read DWORD (skip (1 + length nm) this)
               = (crc4, skip (1 + length nm + DWORD) this)).
  { rewrite stream_read_ok.
    - rewrite R2, skip_skip. f_equal.
      rewrite <- Hc. apply firstn_length_app.
    - exact Hf.
    - rewrite R2, length_app. lia. }
  assert (E3 : stream_read (dataSize_width (sizeMode this))
                 (skip (1 + length nm + DWORD) this)
               = (sz, skip (1 + length nm + DWORD
                            + dataSize_width (sizeMode this)) this)).
  { rewrite stream_read_ok.
    - rewrite R3, skip_skip. f_equal.
      rewrite <- Hs. apply firstn_length_app.
    - exact Hf.
    - rewrite R3, length_app. lia. }
  unfold readHeader, bind, member, ret.
  rewrite (stream_get_ok this _ _ Hf Hr).
  rewrite uint8_of_int_byte, to_N_to_char.
  rewrite N.mod_small by lia. rewrite Nat2N.id.
  rewrite E1, E2, sizeMode_skip.
  rewrite (fill_full (conv_zero DWORD) crc4)
    by (unfold conv_zero; rewrite repeat_length; lia).
  destruct (sizeMode this); cbn [dataSize_width] in *; rewrite E3.
  - now rewrite conv_value_conv_zero.
  - rewrite (fill_full (conv_zero DWORD) sz)
      by (unfold conv_zero; rewrite repeat_length; lia).
    reflexivity.
  - rewrite (fill_full (conv_zero QWORD) sz)
      by (unfold conv_zero; rewrite repeat_length; lia).
    reflexivity.
Qed.

Lemma byte_eqb_refl (b : byte) : Byte.eqb b b = true.
Proof. now apply Byte.byte_dec_lb. Qed.

Lemma byte_eqb_neq (a b : byte) : a <> b -> Byte.eqb a b = false.
Proof.
  intro H. destruct (Byte.eqb a b) eqn:E; [|reflexivity].
  now apply Byte.byte_dec_bl in E.
Qed.

(** The C-string scan ends at the first NUL, whatever follows it. *)
Lemma c_str_app_NUL (pre rest : list byte) :
  ~ In x00 pre -> c_str (pre ++ x00 :: rest) = Some pre.
Proof.
  induction pre as [|c pre IH]; intro Hnin; simpl.
  - reflexivity.
  - rewrite byte_eqb_neq by (intro E; apply Hnin; left; exact E).
    rewrite IH by (intro Hin; apply Hnin; right; exact Hin).
    reflexivity.
Qed.

(** A string the scan returns holds no NUL. *)
Lemma c_str_no_NUL (mem s : list byte) :
  c_str mem = Some s -> ~ In x00 s.
Proof.
  revert s; induction mem as [|c mem IH]; intros s H; simpl in H.
  - discriminate.
  - destruct (Byte.eqb c x00) eqn:E.
    + injection H as <-. intros [].
    + destruct (c_str mem) as [s'|]; [|discriminate].
      injection H as <-. intros [Hc|Hin].
      * apply Byte.eqb_false in E. congruence.
      * now apply (IH s').
Qed.

(* ===================================================================== *)
(** ** Claims on readHeader *)
(* ===================================================================== *)

(** C5 (the code departs from the claim).  In 16-bit size mode
    [readHeader] copies [ds.value] into [dataSize] before it reads the
    two bytes of the field, so the size it returns is 0 whatever the
    header stores in [sz]; the 32- and 64-bit cases read first and
    return the stored value (see [readHeader_dataSize_wide]). *)
Theorem readHeader_dataSize_SizeMode16 (order : ByteOrder)
    (mem : list byte) (this : StaticArchive)
    (nm crc4 sz tail name_read : list byte) :
  sizeMode this = SizeMode16 ->
  failed (stream this) = false ->
  remaining (stream this)
    = to_char (N.of_nat (length nm)) :: nm ++ crc4 ++ sz ++ tail ->
  (length nm <= 255)%nat ->
  length crc4 = DWORD ->
  length sz = WORD ->
  c_str (fill mem nm) = Some name_read ->
  fst (readHeader order mem this)
  = Some (mkEntryHeader name_read (conv_value order crc4) 0).
Proof.
  intros Hm Hf Hr Hn Hc Hs Hname.
  rewrite (readHeader_run order mem this nm crc4 sz tail Hf Hr Hn Hc)
    by (rewrite Hm; exact Hs).
  cbn [fst]. rewrite Hname, Hm. reflexivity.
Qed.

Lemma readHeader_dataSize_SizeMode16_witness :
  conv_value LittleEndian [x05; x00] = 5
  /\ fst (readHeader LittleEndian (repeat x00 8) header16_of_5)
     = Some (mkEntryHeader a_txt 0xaabbccdd 0).
Proof.
  split; [reflexivity|].
  apply (readHeader_dataSize_SizeMode16 LittleEndian (repeat x00 8)
           header16_of_5 a_txt [xdd; xcc; xbb; xaa] [x05; x00] [] a_txt);
    try reflexivity.
  simpl. lia.
Defined.

(** In 32- and 64-bit mode the size returned is the value the field
    stores. *)
Lemma readHeader_dataSize_wide (order : ByteOrder)
    (mem : list byte) (this : StaticArchive)
    (nm crc4 sz tail name_read : list byte) :
  sizeMode this <> SizeMode16 ->
  failed (stream this) = false ->
  remaining (stream this)
    = to_char (N.of_nat (length nm)) :: nm ++ crc4 ++ sz ++ tail ->
  (length nm <= 255)%nat ->
  length crc4 = DWORD ->
  length sz = dataSize_width (sizeMode this) ->
  c_str (fill mem nm) = Some name_read ->
  fst (readHeader order mem this)
  = Some (mkEntryHeader name_read (conv_value order crc4)
            (conv_value order sz)).
Proof.
  intros Hm Hf Hr Hn Hc Hs Hname.
  rewrite (readHeader_run order mem this nm crc4 sz tail Hf Hr Hn Hc Hs).
  cbn [fst]. rewrite Hname.
  destruct (sizeMode this); [contradiction| |]; reflexivity.
Qed.

Lemma readHeader_dataSize_wide_witness :
  fst (readHeader LittleEndian (repeat x00 8) header32_of_5)
  = Some (mkEntryHeader a_txt (conv_value LittleEndian [xdd; xcc; xbb; xaa])
            (conv_value LittleEndian [x05; x00; x00; x00])).
Proof.
  apply (readHeader_dataSize_wide LittleEndian (repeat x00 8)
           header32_of_5 a_txt [xdd; xcc; xbb; xaa] [x05; x00; x00; x00]
           [] a_txt); try reflexivity.
  - discriminate.
  - simpl. lia.
Defined.

(** Whatever the stream holds, a name that [readHeader] returns holds no
    NUL byte. *)
Lemma readHeader_name_has_no_NUL (order : ByteOrder) (mem : list byte)
    (this : StaticArchive) (hdr : EntryHeader) :
  fst (readHeader order mem this) = Some hdr -> ~ In x00 (name hdr).
Proof.
  unfold readHeader, bind, member, ret.
  destruct (stream_get this) as [c t1].
  destruct (stream_read _ t1) as [got t2].
  destruct (stream_read DWORD t2) as [got4 t3].
  destruct (c_str (fill mem got)) as [nm|] eqn:E.
  - apply c_str_no_NUL in E.
    destruct (sizeMode t3);
      repeat match goal with
             | |- context [let (_, _) := ?m in _] => destruct m
             end;
      cbn; intros [= <-]; exact E.
  - destruct (sizeMode t3);
      repeat match goal with
             | |- context [let (_, _) := ?m in _] => destruct m
             end;
      cbn; discriminate.
Qed.

Lemma readHeader_name_has_no_NUL_witness :
  ~ In x00 (name (mkEntryHeader ["a"%byte] 0 5)).
Proof.
  apply (readHeader_name_has_no_NUL LittleEndian [] header_with_NUL).
  reflexivity.
Defined.

(** C8 (the code departs from the claim).  [readHeader] builds the name
    with the C-string constructor, which stops at the first NUL: a name
    [pre ++ 0x00 :: post] comes back as [pre]. *)
Theorem readHeader_name_cut_at_NUL (order : ByteOrder)
    (mem : list byte) (this : StaticArchive)
    (pre post crc4 sz tail : list byte) :
  let nm := pre ++ x00 :: post in
  failed (stream this) = false ->
  remaining (stream this)
    = to_char (N.of_nat (length nm)) :: nm ++ crc4 ++ sz ++ tail ->
  (length nm <= 255)%nat ->
  length crc4 = DWORD ->
  length sz = dataSize_width (sizeMode this) ->
  ~ In x00 pre ->
  exists hdr,
    fst (readHeader order mem this) = Some hdr /\ name hdr = pre.
Proof.
  intros nm Hf Hr Hn Hc Hs Hpre.
  rewrite (readHeader_run order mem this nm crc4 sz tail Hf Hr Hn Hc Hs).
  cbn [fst]. unfold fill, nm. rewrite <- app_assoc. cbn [app].
  rewrite c_str_app_NUL by exact Hpre.
  eexists; split; reflexivity.
Qed.

Lemma readHeader_name_cut_at_NUL_witness :
  exists hdr,
    fst (readHeader LittleEndian [] header_with_NUL) = Some hdr
    /\ name hdr = ["a"%byte].
Proof.
  apply (readHeader_name_cut_at_NUL LittleEndian [] header_with_NUL
           ["a"%byte] ["b"%byte] [x00; x00; x00; x00]
           [x05; x00; x00; x00] []); try reflexivity.
  - simpl. lia.
  - simpl. intros [H|[]]. discriminate H.
Defined.

(* ===================================================================== *)
(** ** Writing at the end of the file *)
(* ===================================================================== *)

Lemma fstream_write_at_end (bytes : list byte) (s : fstream) :
  failed s = false ->
  pos s = length (content s) ->
  fstream_write bytes s
  = mkStream (content s ++ bytes) (pos s + length bytes) false.
Proof.
  intros Hf Hp. unfold fstream_write. rewrite Hf.
  destruct bytes as [|b bytes].
  - destruct s as [c p f]; simpl in *; subst.
    now rewrite app_nil_r, Nat.add_0_r.
  - rewrite Hp, Nat.sub_diag, firstn_all.
    rewrite skipn_all2 by lia.
    cbn [repeat app]. now rewrite app_nil_r.
Qed.

Lemma stream_write_at_end (bytes : list byte) (this : StaticArchive) :
  failed (stream this) = false ->
  pos (stream this) = length (content (stream this)) ->
  stream_write bytes this = (tt, extended bytes this).
Proof.
  intros Hf Hp. unfold stream_write, extended.
  now rewrite fstream_write_at_end.
Qed.

Lemma extended_at_end (bytes : list byte) (this : StaticArchive) :
  pos (stream this) = length (content (stream this)) ->
  failed (stream (extended bytes this)) = false
  /\ pos (stream (extended bytes this))
     = length (content (stream (extended bytes this))).
Proof.
  intro Hp. unfold extended; simpl. split; [reflexivity|].
  rewrite length_app. lia.
Qed.

Lemma extended_extended (b1 b2 : list byte) (this : StaticArchive) :
  extended b2 (extended b1 this) = extended (b1 ++ b2) this.
Proof.
  unfold extended; simpl.
  now rewrite <- app_assoc, length_app, Nat.add_assoc.
Qed.

(** The bytes of one run of [writeheader] that does not throw. *)
Lemma writeheader_run (order : ByteOrder) (this : StaticArchive)
    (name : list byte) (crc dataSize : N) :
  (length name <= 256)%nat ->
  failed (stream this) = false ->
  pos (stream this) = length (content (stream this)) ->
  writeheader order name crc dataSize this
  = (inr tt,
     extended
       (to_char (N.of_nat (length name)) :: name
          ++ conv_data order DWORD crc
          ++ conv_data order QWORD dataSize) this).
Proof.
  intros Hn Hf Hp. unfold writeheader.
  replace (256 <? length name)%nat with false
    by (symmetry; apply Nat.ltb_ge; exact Hn).
  unfold bind, ret, stream_put, fstream_put.
  fold (stream_write [to_char (N.of_nat (length name))] this).
  rewrite stream_write_at_end by assumption.
  destruct (extended_at_end [to_char (N.of_nat (length name))] this Hp)
    as [Hf1 Hp1].
  rewrite stream_write_at_end by assumption.
  rewrite extended_extended.
  destruct (extended_at_end ([to_char (N.of_nat (length name))] ++ name)
              this Hp) as [Hf2 Hp2].
  rewrite stream_write_at_end by assumption.
  rewrite extended_extended.
  match goal with
  | |- context [stream_write _ (extended ?b this)] =>
      destruct (extended_at_end b this Hp) as [Hf3 Hp3]
  end.
  rewrite stream_write_at_end by assumption.
  rewrite extended_extended.
  repeat rewrite <- app_assoc. reflexivity.
Qed.

(* ===================================================================== *)
(** ** Claims on writeheader *)
(* ===================================================================== *)

(** C4 (the code departs from the claim).  [writeheader] never looks at
    [sizeMode]: after the length byte, the name and the four bytes of the
    checksum it writes the data size through [conv<uint64_t>], eight
    bytes, in 16- and 32-bit mode as well, where [readHeader] takes two
    and four. *)
Theorem writeheader_dataSize_eight_bytes (order : ByteOrder)
    (this : StaticArchive) (name : list byte) (crc dataSize : N) :
  (length name <= 256)%nat ->
  failed (stream this) = false ->
  pos (stream this) = length (content (stream this)) ->
  let this' := snd (writeheader order name crc dataSize this) in
  content (stream this')
  = content (stream this)
      ++ to_char (N.of_nat (length name)) :: name
      ++ conv_data order DWORD crc
      ++ conv_data order QWORD dataSize
  /\ length (conv_data order QWORD dataSize) = 8%nat
  /\ length (content (stream this'))
     = (length (content (stream this)) + 1 + length name + 4 + 8)%nat.
Proof.
  intros Hn Hf Hp this'. subst this'.
  rewrite writeheader_run by assumption.
  cbn [snd]. unfold extended; cbn [set_stream snd stream content].
  split; [reflexivity|]. split; [apply length_conv_data|].
  rewrite length_app. cbn [length].
  rewrite !length_app, !length_conv_data. unfold DWORD, QWORD. lia.
Qed.

Lemma writeheader_dataSize_eight_bytes_witness :
  let this' := snd (writeheader LittleEndian a_txt 0 5 fresh16) in
  content (stream this')
  = [] ++ x05 :: a_txt ++ [x00; x00; x00; x00]
       ++ [x05; x00; x00; x00; x00; x00; x00; x00]
  /\ length (conv_data LittleEndian QWORD 5) = 8%nat
  /\ length (content (stream this')) = (0 + 1 + 5 + 4 + 8)%nat.
Proof.
  apply (writeheader_dataSize_eight_bytes LittleEndian fresh16 a_txt 0 5).
  - simpl. lia.
  - reflexivity.
  - reflexivity.
Defined.

(** C6 (the code departs from the claim).  The guard of [writeheader] is
    [name.size() > 256]: a name of 256 bytes passes it, and its length
    byte, [(char)256], is 0. *)
Theorem writeheader_accepts_256_bytes (order : ByteOrder)
    (this : StaticArchive) (name : list byte) (crc dataSize : N) :
  length name = 256%nat ->
  fst (writeheader order name crc dataSize this) = inr tt
  /\ to_char (N.of_nat (length name)) = x00.
Proof.
  intro Hn. unfold writeheader. rewrite Hn. split; reflexivity.
Qed.

Lemma writeheader_accepts_256_bytes_witness :
  fst (writeheader LittleEndian (repeat "a"%byte 256) 0 0 fresh16) = inr tt
  /\ to_char (N.of_nat (length (repeat "a"%byte 256))) = x00.
Proof.
  apply (writeheader_accepts_256_bytes LittleEndian fresh16
           (repeat "a"%byte 256) 0 0).
  apply repeat_length.
Defined.

(** [writeheader] throws exactly for the names longer than 256 bytes. *)
Lemma writeheader_throws_iff (order : ByteOrder)
    (this : StaticArchive) (name : list byte) (crc dataSize : N) :
  (exists e, fst (writeheader order name crc dataSize this) = inl e)
  <-> (256 < length name)%nat.
Proof.
  unfold writeheader.
  destruct (256 <? length name)%nat eqn:E.
  - apply Nat.ltb_lt in E. split; [intros _; exact E|].
    intros _. eexists. reflexivity.
  - apply Nat.ltb_ge in E. split; [|lia].
    intros [e He]. unfold bind, ret in He.
    repeat match type of He with
           | context [let (_, _) := ?m in _] => destruct m
           end.
    discriminate He.
Qed.

(* ===================================================================== *)
(** ** Claims on the signature block *)
(* ===================================================================== *)

Lemma byte_to_N_inj (a b : byte) : Byte.to_N a = Byte.to_N b -> a = b.
Proof.
  intro H. pose proof (Byte.of_to_N a) as Ha.
  rewrite H, Byte.of_to_N in Ha. now injection Ha.
Qed.

(** Against a first argument without NUL, [strncmp] over the whole
    length is a comparison of all the bytes. *)
Lemma strncmp_no_NUL (s1 s2 : list byte) :
  length s1 = length s2 ->
  ~ In x00 s1 ->
  exists z, strncmp s1 s2 (length s1) = Some z /\ (z = 0%Z <-> s1 = s2).
Proof.
  revert s2; induction s1 as [|c1 s1 IH]; intros [|c2 s2] Hl Hn;
    try discriminate Hl.
  - exists 0%Z. simpl. tauto.
  - cbn [length strncmp].
    destruct (Byte.eqb c1 c2) eqn:E.
    + apply Byte.byte_dec_bl in E. subst c2.
      rewrite byte_eqb_neq by (intro E; apply Hn; left; exact E).
      destruct (IH s2) as [z [Hz Hiff]].
      * now injection Hl.
      * intro Hin. apply Hn. right. exact Hin.
      * exists z. split; [exact Hz|].
        rewrite Hiff. split; [now intros ->|now intros [= ->]].
    + apply Byte.eqb_false in E. eexists. split; [reflexivity|].
      split.
      * intro H. exfalso. apply E. apply byte_to_N_inj. lia.
      * intros [= -> _]. contradiction.
Qed.

(** C3 (the code departs from the claim).  [checkSignature] returns the
    result of [strncmp] as its [bool]: [true] exactly when the first
    eight bytes of the file differ from the magic constant, [false] when
    they are the magic.  [loadSignature] does not call it and has no
    failing path. *)
Theorem checkSignature_true_iff_mismatch (buffer0 : list byte)
    (this : StaticArchive) (first8 rest : list byte) :
  failed (stream this) = false ->
  content (stream this) = first8 ++ rest ->
  length first8 = QWORD ->
  exists b,
    fst (checkSignature buffer0 this) = Some b
    /\ (b = true <-> first8 <> STATIC_MAGIC).
Proof.
  intros Hf Hc Hl.
  unfold checkSignature, bind, ret, seekg.
  set (this0 := snd (set_stream (fstream_seek 0 (stream this)) this)).
  assert (Hf0 : failed (stream this0) = false).
  { unfold this0, fstream_seek. rewrite Hf. reflexivity. }
  assert (Hr0 : remaining (stream this0) = first8 ++ rest).
  { unfold this0, fstream_seek, remaining. rewrite Hf. simpl. exact Hc. }
  change (set_stream (fstream_seek 0 (stream this)) this) with (tt, this0).
  cbv beta iota.
  rewrite stream_read_ok; cycle 1.
  { exact Hf0. }
  { rewrite Hr0, length_app. lia. }
  rewrite Hr0, <- Hl, firstn_length_app.
  rewrite fill_full by (rewrite length_firstn; lia).
  cbn [fst].
  destruct (strncmp_no_NUL STATIC_MAGIC first8) as [z [Hz Hiff]].
  - rewrite Hl. reflexivity.
  - simpl. intuition discriminate.
  - change (length STATIC_MAGIC) with QWORD in Hz.
    rewrite <- Hl in Hz. rewrite Hz. cbn [option_map].
    exists (bool_of_int z). split; [reflexivity|].
    unfold bool_of_int. rewrite negb_true_iff, Z.eqb_neq, Hiff.
    split; intros H E; apply H; now symmetry.
Qed.

Lemma checkSignature_true_iff_mismatch_witness :
  exists b,
    fst (checkSignature [] magic_only) = Some b
    /\ (b = true <-> STATIC_MAGIC <> STATIC_MAGIC).
Proof.
  apply (checkSignature_true_iff_mismatch [] magic_only STATIC_MAGIC []);
    reflexivity.
Defined.

(** On a valid archive the check answers [false]. *)
Lemma checkSignature_magic_only :
  fst (checkSignature [] magic_only) = Some false.
Proof. reflexivity. Qed.

Lemma fileCount_stream_get (a : StaticArchive) :
  fileCount (snd (stream_get a)) = fileCount a.
Proof. unfold stream_get. now destruct (fstream_get (stream a)). Qed.

(** C2 (the code departs from the claim).  [loadSignature] reads the
    eight bytes of the file count into [gp.data] and then takes
    [fileCount] from [fc], which nothing has written: whatever the file
    holds, and so also right behind [writeSignature], the handle's
    [fileCount] is 0 afterwards. *)
Theorem loadSignature_fileCount_zero (order : ByteOrder)
    (this : StaticArchive) :
  fileCount (snd (loadSignature order this)) = 0
  /\ fileCount
       (snd (loadSignature order (snd (writeSignature order this)))) = 0.
Proof.
  assert (H : forall a, fileCount (snd (loadSignature order a)) = 0).
  { intro a. unfold loadSignature, bind, ret.
    destruct (seekg QWORD a) as [u0 t0].
    destruct (stream_read DWORD t0) as [got t1].
    destruct (set_generalPurposeField _ t1) as [u1 t2].
    destruct (stream_read QWORD t2) as [got2 t3].
    destruct (set_fileCount _ t3) as [u2 t4] eqn:E4.
    assert (F4 : fileCount t4 = 0).
    { unfold set_fileCount in E4. injection E4 as _ <-.
      cbn [fileCount]. apply conv_value_conv_zero. }
    pose proof (fileCount_stream_get t4) as F5.
    destruct (stream_get t4) as [sm t5]. cbn [snd] in F5.
    pose proof (fileCount_stream_get t5) as F6.
    destruct (stream_get t5) as [wc t6]. cbn [snd] in F6.
    destruct (SizeMode_of_int sm); cbn; congruence. }
  split; apply H.
Qed.

(** The [stream->write] of [bytes] over a stream that stands behind
    [pre], with [suf] still ahead. *)
Lemma fstream_write_over (pre suf bytes : list byte) :
  fstream_write bytes (mkStream (pre ++ suf) (length pre) false)
  = mkStream ((pre ++ bytes) ++ skipn (length bytes) suf)
      (length (pre ++ bytes)) false.
Proof.
  unfold fstream_write. cbn [failed content pos].
  destruct bytes as [|b bytes].
  - cbn [length skipn]. now rewrite app_nil_r.
  - rewrite firstn_length_app.
    replace (length pre - length (pre ++ suf))%nat with 0%nat
      by (rewrite length_app; lia).
    rewrite Nat.add_comm, <- skipn_skipn, skipn_length_app.
    cbn [repeat app]. rewrite <- app_assoc.
    f_equal. rewrite length_app. apply Nat.add_comm.
Qed.

Lemma length_signature_bytes (order : ByteOrder) (this : StaticArchive) :
  length (signature_bytes order this) = 22%nat.
Proof.
  unfold signature_bytes.
  rewrite !length_app, !length_conv_data. reflexivity.
Qed.

Lemma writeSignature_run (order : ByteOrder) (this : StaticArchive) :
  failed (stream this) = false ->
  writeSignature order this
  = (tt,
     snd (set_stream
            (mkStream
               (signature_bytes order this
                  ++ skipn 22 (content (stream this)))
               22 false) this)).
Proof.
  intro Hf.
  unfold writeSignature, bind, member, seekp, seekg, stream_write,
    stream_put, fstream_put, set_stream, fstream_seek.
  rewrite Hf. cbn [stream generalPurposeField fileCount sizeMode writeCrc].
  change (mkStream (content (stream this)) 0 false)
    with (mkStream ([] ++ content (stream this)) (length (@nil byte)) false).
  rewrite !fstream_write_over.
  f_equal. cbn [snd]. f_equal.
  rewrite !skipn_skipn.
  rewrite !length_app, !length_conv_data.
  cbn [length STATIC_MAGIC app Nat.add DWORD QWORD].
  f_equal. unfold signature_bytes.
  repeat rewrite <- app_assoc. reflexivity.
Qed.



(** The handle counted three entries; the signature block on the file
    says so (bytes 12 to 19); the handle that loads it counts none, and
    the read of the count put four bytes behind the end of [gp.data]. *)
Lemma loadSignature_three_entries :
  let written := snd (writeSignature LittleEndian three_entries) in
  fileCount written = 3
  /\ firstn 8 (skipn 12 (content (stream written)))
     = [x03; x00; x00; x00; x00; x00; x00; x00]
  /\ fileCount (snd (loadSignature LittleEndian written)) = 0
  /\ loadSignature_overrun written = 4%nat.
Proof. repeat split. Qed.

(* ===================================================================== *)
(** ** Claims on the accessors and the constructors *)
(* ===================================================================== *)

(** C9.  [getMaxFilesize] returns 0xFFFF in 16-bit mode, 0xFFFFFFFF in
    32-bit mode and 0xFFFFFFFFFFFFFFFF in 64-bit mode: in each mode the
    largest value the data-size field of that width holds. *)
Theorem getMaxFilesize_by_sizeMode (this : StaticArchive) :
  (getSizeMode this = SizeMode16 -> getMaxFilesize this = 0xFFFF)
  /\ (getSizeMode this = SizeMode32 -> getMaxFilesize this = 0xFFFFFFFF)
  /\ (getSizeMode this = SizeMode64 ->
      getMaxFilesize this = 0xFFFFFFFFFFFFFFFF)
  /\ getMaxFilesize this
     = 256 ^ N.of_nat (dataSize_width (getSizeMode this)) - 1.
Proof.
  unfold getMaxFilesize, getSizeMode.
  destruct (sizeMode this); repeat split; intro H;
    first [reflexivity | discriminate H].
Qed.

(** C10 (the code departs from the claim).  [Flags flags_{flags}]
    initialises the union's first member, the bit-field struct, and of
    that its first field: [flags] reaches [verbose] only.  [writeCrc] and
    [checks] are zero-initialised, so both constructors that take flags
    store [false] in the handle's [writeCrc] and [checks] for every
    flags byte; neither bit 3 nor bit 4 of [flags] has any effect. *)
Theorem flags_constructors_store_false (gpf0 : N) (checks0 : bool)
    (file : fstream) (mode : Mode) (sizeMode : SizeMode) (flags : byte) :
  let by_path :=
    StaticArchive_path_flags gpf0 checks0 file mode sizeMode flags in
  let by_stream :=
    StaticArchive_stream_flags gpf0 checks0 file mode sizeMode flags in
  writeCrc by_path = false /\ checks by_path = false
  /\ writeCrc by_stream = false /\ checks by_stream = false.
Proof.
  unfold StaticArchive_path_flags, StaticArchive_stream_flags.
  cbn. repeat split.
Qed.

(** What the claim describes is the reading of the struct through the
    byte member [v]: there bit 3, the mask [STATIC_FLAG_DISABLE_CHECKS],
    is [writeCrc], and bit 4, the mask [STATIC_FLAG_WRITE_CRC32], is
    [checks]. *)
Lemma Flags_of_v_masks (v : byte) :
  Flags.writeCrc (Flags.of_v v)
  = negb (N.land (Byte.to_N v) STATIC_FLAG_DISABLE_CHECKS =? 0)
  /\ Flags.checks (Flags.of_v v)
     = negb (N.land (Byte.to_N v) STATIC_FLAG_WRITE_CRC32 =? 0).
Proof. destruct v; split; reflexivity. Qed.

(** The flags byte whose bit 3 is set leaves [writeCrc] clear. *)
Lemma flags_bit3_not_stored :
  N.testbit (Byte.to_N x08) 3 = true
  /\ writeCrc
       (StaticArchive_stream_flags 0 false empty_file ModeCreate SizeMode16
          x08) = false.
Proof. split; reflexivity. Qed.

(* ===================================================================== *)
(** ** Claims on append *)
(* ===================================================================== *)

Lemma append_all_unchanged
    (calls : list (FileInfo * (list byte * list byte)))
    (this : StaticArchive) :
  snd (append_all calls this) = this
  /\ length (fst (append_all calls this)) = length calls.
Proof.
  induction calls as [|[returned [name payload]] calls IH]; simpl.
  - split; reflexivity.
  - unfold bind, append, ret in *. destruct (append_all calls this) as [fis t].
    simpl in *. destruct IH as [-> ->]. split; reflexivity.
Qed.

(** C7 (the code departs from the claim).  [append] has an empty body,
    so no call changes the handle: after any number of calls on a newly
    constructed archive [getFileCount] still returns the 0 of the member
    initialiser, and differs from the number of calls as soon as there
    is one. *)
Theorem getFileCount_after_appends (gpf0 : N) (checks0 : bool)
    (file : fstream) (mode : Mode) (sizeMode : SizeMode) (flags : byte)
    (calls : list (FileInfo * (list byte * list byte))) :
  let this :=
    StaticArchive_stream_flags gpf0 checks0 file mode sizeMode flags in
  let after := snd (append_all calls this) in
  after = this
  /\ getFileCount after = 0
  /\ (calls <> [] -> getFileCount after <> N.of_nat (length calls)).
Proof.
  intros this after. subst after.
  destruct (append_all_unchanged calls this) as [-> _].
  split; [reflexivity|]. split; [reflexivity|].
  intro Hne. destruct calls as [|c calls]; [contradiction|].
  cbn [length]. rewrite Nat2N.inj_succ.
  change (getFileCount this) with 0. lia.
Qed.

(** C1 (the code departs from the claim).  [append] writes nothing, so a
    file that was empty before the call is empty after it, and reading
    the entry the call returned, whatever [FileInfo] that is, puts no
    byte into the sink: a payload of one byte or more does not come
    back. *)
Theorem append_then_read_on_empty_file (checksum : list byte -> N)
    (this : StaticArchive) (returned : FileInfo)
    (name payload : list byte) :
  content (stream this) = [] ->
  payload <> [] ->
  let appended := append returned name payload this in
  snd appended = this
  /\ fst (fst (read checksum (fst appended) (snd appended))) = []
  /\ fst (fst (read checksum (fst appended) (snd appended))) <> payload.
Proof.
  intros Hc Hp appended. subst appended. unfold append, ret. cbn [fst snd].
  assert (E : fst (fst (read checksum returned this)) = []).
  { unfold read, bind, member, ret.
    destruct (closed this); [reflexivity|].
    unfold seekg, stream_read, set_stream, fstream_seek, fstream_read.
    cbn [stream snd].
    destruct (failed (stream this)) eqn:Hf.
    - rewrite Hf. cbn.
      repeat match goal with
             | |- context [if ?c then _ else _] => destruct c
             end; reflexivity.
    - cbn [failed content pos]. rewrite Hc.
      rewrite skipn_nil, firstn_nil. cbn.
      repeat match goal with
             | |- context [if ?c then _ else _] => destruct c
             end; reflexivity. }
  split; [reflexivity|]. split; [exact E|].
  rewrite E. intro H. apply Hp. now symmetry.
Qed.

Lemma append_then_read_on_empty_file_witness :
  let this :=
    StaticArchive_stream_flags 0 false empty_file ModeCreate SizeMode16 x00 in
  let returned := mkFileInfo a_txt 5 0 22 40 in
  let appended := append returned a_txt hello this in
  snd appended = this
  /\ fst (fst (read (fun _ => 0) (fst appended) (snd appended))) = []
  /\ fst (fst (read (fun _ => 0) (fst appended) (snd appended))) <> hello.
Proof.
  apply (append_then_read_on_empty_file (fun _ => 0)
           (StaticArchive_stream_flags 0 false empty_file ModeCreate
              SizeMode16 x00)
           (mkFileInfo a_txt 5 0 22 40) a_txt hello).
  - reflexivity.
  - discriminate.
Defined.

(* ===================================================================== *)
(** ** What the reading functions leave alone *)
(* ===================================================================== *)

Lemma only_stream_moved_refl (a : StaticArchive) : only_stream_moved a a.
Proof.
  exists (pos (stream a)), (failed (stream a)).
  destruct a as [g c [ct p f] sm m fc w cl]. reflexivity.
Qed.

Lemma only_stream_moved_trans (a b c : StaticArchive) :
  only_stream_moved a b -> only_stream_moved b c -> only_stream_moved a c.
Proof.
  intros [p [f ->]] [q [g ->]]. exists q, g. reflexivity.
Qed.

Lemma only_stream_moved_seekg (p : nat) (a : StaticArchive) :
  only_stream_moved a (snd (seekg p a)).
Proof.
  unfold seekg, fstream_seek.
  destruct (failed (stream a)) eqn:Hf.
  - exists (pos (stream a)), true.
    destruct a as [g c [ct q f] sm m fc w cl]. simpl in *. now subst f.
  - exists p, false. reflexivity.
Qed.

Lemma only_stream_moved_read (n : nat) (a : StaticArchive) :
  only_stream_moved a (snd (stream_read n a)).
Proof.
  unfold stream_read, fstream_read.
  destruct (failed (stream a)) eqn:Hf.
  - exists (pos (stream a)), true.
    destruct a as [g c [ct q f] sm m fc w cl]. simpl in *. now subst f.
  - eexists _, _. reflexivity.
Qed.

Lemma only_stream_moved_get (a : StaticArchive) :
  only_stream_moved a (snd (stream_get a)).
Proof.
  unfold stream_get, fstream_get.
  destruct (failed (stream a)) eqn:Hf.
  - exists (pos (stream a)), true.
    destruct a as [g c [ct q f] sm m fc w cl]. simpl in *. now subst f.
  - destruct (nth_error (content (stream a)) (pos (stream a)));
      eexists _, _; reflexivity.
Qed.

Lemma only_stream_moved_content (a b : StaticArchive) :
  only_stream_moved a b ->
  content (stream b) = content (stream a)
  /\ mode b = mode a /\ closed b = closed a /\ checks b = checks a.
Proof. intros [p [f ->]]. repeat split. Qed.

Lemma loadSignature_keeps (order : ByteOrder) (this : StaticArchive) :
  exists g fc sm w p f,
    snd (loadSignature order this)
    = mkStaticArchive g (checks this)
        (mkStream (content (stream this)) p f) sm (mode this) fc w
        (closed this).
Proof.
  unfold loadSignature, bind, ret.
  destruct (only_stream_moved_seekg QWORD this) as [p0 [f0 E0]].
  destruct (seekg QWORD this) as [u t0]. cbn [snd] in E0. subst t0.
  match goal with
  | |- context [stream_read DWORD ?a] =>
      destruct (only_stream_moved_read DWORD a) as [p1 [f1 E1]];
      destruct (stream_read DWORD a) as [got t1]
  end.
  cbn in E1. subst t1. unfold set_generalPurposeField at 1.
  match goal with
  | |- context [stream_read QWORD ?a] =>
      destruct (only_stream_moved_read QWORD a) as [p2 [f2 E2]];
      destruct (stream_read QWORD a) as [got2 t2]
  end.
  cbn in E2. subst t2. unfold set_fileCount at 1.
  match goal with
  | |- context [stream_get ?a] =>
      destruct (only_stream_moved_get a) as [p3 [f3 E3]];
      destruct (stream_get a) as [sm t3]
  end.
  cbn in E3. subst t3.
  match goal with
  | |- context [stream_get ?a] =>
      destruct (only_stream_moved_get a) as [p4 [f4 E4]];
      destruct (stream_get a) as [wc t4]
  end.
  cbn in E4. subst t4.
  destruct (SizeMode_of_int sm); cbn; repeat eexists.
Qed.

(** [checkSignature] and [readHeader] change nothing but the position and
    the state of the stream; [loadSignature], which stores four members,
    keeps the bytes of the file and the members [mode], [closed] and
    [checks]. *)
Theorem reading_keeps_the_file (order : ByteOrder)
    (buffer0 mem : list byte) (this : StaticArchive) :
  only_stream_moved this (snd (checkSignature buffer0 this))
  /\ only_stream_moved this (snd (readHeader order mem this))
  /\ (let loaded := snd (loadSignature order this) in
      content (stream loaded) = content (stream this)
      /\ mode loaded = mode this
      /\ closed loaded = closed this
      /\ checks loaded = checks this).
Proof.
  split; [|split].
  - unfold checkSignature, bind, ret.
    pose proof (only_stream_moved_seekg 0 this) as H0.
    destruct (seekg 0 this) as [u t0]. cbn [snd] in H0.
    pose proof (only_stream_moved_read QWORD t0) as H1.
    destruct (stream_read QWORD t0) as [got t1]. cbn [snd] in *.
    now apply (only_stream_moved_trans this t0 t1).
  - unfold readHeader, bind, member, ret.
    pose proof (only_stream_moved_get this) as H0.
    destruct (stream_get this) as [c t0]. cbn [snd] in H0.
    pose proof (only_stream_moved_read (N.to_nat (uint8_of_int c)) t0)
      as H1.
    destruct (stream_read _ t0) as [got t1]. cbn [snd] in H1.
    pose proof (only_stream_moved_read DWORD t1) as H2.
    destruct (stream_read DWORD t1) as [got4 t2]. cbn [snd] in H2.
    assert (H012 : only_stream_moved this t2).
    { apply (only_stream_moved_trans this t0 t2); [exact H0|].
      now apply (only_stream_moved_trans t0 t1 t2). }
    destruct (sizeMode t2).
    + pose proof (only_stream_moved_read WORD t2) as H3.
      destruct (stream_read WORD t2) as [got3 t3]. cbn [snd] in *.
      now apply (only_stream_moved_trans this t2 t3).
    + pose proof (only_stream_moved_read DWORD t2) as H3.
      destruct (stream_read DWORD t2) as [got3 t3]. cbn [snd] in *.
      now apply (only_stream_moved_trans this t2 t3).
    + pose proof (only_stream_moved_read QWORD t2) as H3.
      destruct (stream_read QWORD t2) as [got3 t3]. cbn [snd] in *.
      now apply (only_stream_moved_trans this t2 t3).
  - destruct (loadSignature_keeps order this)
      as (g & fc & sm & w & p & f & E).
    cbv zeta. rewrite E. repeat split.
Qed.

(* ===================================================================== *)
(** ** The signature functions position the stream themselves *)
(* ===================================================================== *)



(* ===================================================================== *)
(** ** loadSignature over any file of 22 bytes or more *)
(* ===================================================================== *)

(** One run of [loadSignature] over a file that holds the 22 bytes of a
    signature block, whatever handle reads it. *)
Lemma loadSignature_run (order : ByteOrder) (this : StaticArchive)
    (magic8 gp4 fc8 tail : list byte) (sm wc : byte) (m : SizeMode) :
  failed (stream this) = false ->
  content (stream this) = magic8 ++ gp4 ++ fc8 ++ [sm; wc] ++ tail ->
  length magic8 = QWORD ->
  length gp4 = DWORD ->
  length fc8 = QWORD ->
  SizeMode_of_int (Z.of_N (Byte.to_N sm)) = Some m ->
  loadSignature order this
  = (Some tt,
     mkStaticArchive (conv_value order gp4) (checks this)
       (mkStream (content (stream this)) 22 false) m (mode this) 0
       (bool_of_int (Z.of_N (Byte.to_N wc))) (closed this)).
Proof.
  intros Hf Hc L0 L4 L8 Hsm.
  set (this2 := snd (seekg QWORD this)).
  assert (S2 : stream this2 = mkStream (content (stream this)) QWORD false).
  { unfold this2, seekg, fstream_seek. now rewrite Hf. }
  assert (Hf2 : failed (stream this2) = false) by now rewrite S2.
  assert (R0 : remaining (stream this2) = gp4 ++ fc8 ++ [sm; wc] ++ tail).
  { rewrite S2. unfold remaining. cbn [pos content].
    rewrite Hc, <- L0. apply skipn_length_app. }
  assert (E1 : stream_read DWORD this2 = (gp4, skip DWORD this2)).
  { rewrite stream_read_ok.
    - rewrite R0, <- L4. now rewrite firstn_length_app.
    - exact Hf2.
    - rewrite R0, length_app. lia. }
  assert (R1 : remaining (stream (skip DWORD this2))
               = fc8 ++ [sm; wc] ++ tail).
  { rewrite remaining_skip, R0, <- L4. apply skipn_length_app. }
  set (this3 := snd (set_generalPurposeField
                       (conv_value order (fill (conv_zero DWORD) gp4))
                       (skip DWORD this2))).
  assert (E2 : stream_read QWORD this3 = (fc8, skip QWORD this3)).
  { rewrite stream_read_ok.
    - change (remaining (stream this3))
        with (remaining (stream (skip DWORD this2))).
      rewrite R1, <- L8. now rewrite firstn_length_app.
    - exact Hf2.
    - change (remaining (stream this3))
        with (remaining (stream (skip DWORD this2))).
      rewrite R1, length_app. lia. }
  assert (R2 : remaining (stream (skip QWORD this3)) = [sm; wc] ++ tail).
  { rewrite remaining_skip.
    change (remaining (stream this3))
      with (remaining (stream (skip DWORD this2))).
    rewrite R1, <- L8. apply skipn_length_app. }
  set (this4 := snd (set_fileCount (conv_value order (conv_zero QWORD))
                       (skip QWORD this3))).
  assert (E3 : stream_get this4 = (Z.of_N (Byte.to_N sm), skip 1 this4)).
  { apply (stream_get_ok this4 sm (wc :: tail)); [exact Hf2|].
    change (remaining (stream this4))
      with (remaining (stream (skip QWORD this3))).
    exact R2. }
  assert (E4 : stream_get (skip 1 this4)
               = (Z.of_N (Byte.to_N wc), skip 1 (skip 1 this4))).
  { apply (stream_get_ok (skip 1 this4) wc tail); [exact Hf2|].
    rewrite remaining_skip.
    change (remaining (stream this4))
      with (remaining (stream (skip QWORD this3))).
    now rewrite R2. }
  unfold loadSignature, bind, ret.
  change (seekg QWORD this) with (tt, this2).
  cbv beta iota. rewrite E1.
  change (set_generalPurposeField
            (conv_value order (fill (conv_zero DWORD) gp4))
            (skip DWORD this2)) with (tt, this3).
  cbv beta iota. rewrite E2.
  change (set_fileCount (conv_value order (conv_zero QWORD))
            (skip QWORD this3)) with (tt, this4).
  cbv beta iota. rewrite E3, E4, Hsm.
  cbn [fst snd set_sizeMode set_writeCrc generalPurposeField sizeMode
         writeCrc fileCount skip set_stream this4 set_fileCount this3
         set_generalPurposeField checks mode closed stream].
  rewrite S2. cbn [advance content pos failed Nat.add DWORD QWORD].
  rewrite fill_full by (unfold conv_zero; rewrite repeat_length; lia).
  rewrite conv_value_conv_zero.
  unfold this2, seekg, fstream_seek. rewrite Hf. reflexivity.
Qed.

(** [loadSignature] looks neither at the magic bytes nor at the bytes of
    the file count: two files that agree on bytes 8..11, 20 and 21 load
    into the same members, and the load reports success although the
    first eight bytes may be anything. *)
Theorem loadSignature_ignores_magic_and_count (order : ByteOrder)
    (this : StaticArchive) (magic8 magic8' gp4 fc8 fc8' tail tail' : list byte)
    (sm wc : byte) (m : SizeMode) :
  failed (stream this) = false ->
  length magic8 = QWORD -> length magic8' = QWORD ->
  length gp4 = DWORD ->
  length fc8 = QWORD -> length fc8' = QWORD ->
  SizeMode_of_int (Z.of_N (Byte.to_N sm)) = Some m ->
  let on (bytes : list byte) :=
    loadSignature order
      (snd (set_stream (mkStream bytes (pos (stream this)) false) this)) in
  let one := on (magic8 ++ gp4 ++ fc8 ++ [sm; wc] ++ tail) in
  let other := on (magic8' ++ gp4 ++ fc8' ++ [sm; wc] ++ tail') in
  fst one = Some tt /\ fst other = Some tt
  /\ generalPurposeField (snd one) = generalPurposeField (snd other)
  /\ fileCount (snd one) = 0 /\ fileCount (snd other) = 0
  /\ sizeMode (snd one) = m /\ sizeMode (snd other) = m
  /\ writeCrc (snd one) = writeCrc (snd other).
Proof.
  intros Hf L0 L0' L4 L8 L8' Hsm on one other. subst one other on.
  cbv beta.
  rewrite (loadSignature_run order _ magic8 gp4 fc8 tail sm wc m);
    try assumption; try reflexivity.
  rewrite (loadSignature_run order _ magic8' gp4 fc8' tail' sm wc m);
    try assumption; try reflexivity.
  cbn. repeat split.
Qed.

Lemma loadSignature_ignores_magic_and_count_witness :
  let on (bytes : list byte) :=
    loadSignature LittleEndian
      (snd (set_stream (mkStream bytes (pos (stream fresh16)) false)
              fresh16)) in
  let one :=
    on (STATIC_MAGIC ++ [x04; x03; x02; x01]
          ++ [x03; x00; x00; x00; x00; x00; x00; x00] ++ [x01; x01] ++ []) in
  let other :=
    on (repeat x00 8 ++ [x04; x03; x02; x01]
          ++ repeat xff 8 ++ [x01; x01] ++ [x2a]) in
  fst one = Some tt /\ fst other = Some tt
  /\ generalPurposeField (snd one) = generalPurposeField (snd other)
  /\ fileCount (snd one) = 0 /\ fileCount (snd other) = 0
  /\ sizeMode (snd one) = SizeMode32 /\ sizeMode (snd other) = SizeMode32
  /\ writeCrc (snd one) = writeCrc (snd other).
Proof.
  apply (loadSignature_ignores_magic_and_count LittleEndian fresh16
           STATIC_MAGIC (repeat x00 8) [x04; x03; x02; x01]
           [x03; x00; x00; x00; x00; x00; x00; x00] (repeat xff 8)
           [] [x2a] x01 x01 SizeMode32); reflexivity.
Defined.

(* ===================================================================== *)
(** ** Writing the signature block, and opening the file again *)
(* ===================================================================== *)

Lemma signature_bytes_split (order : ByteOrder) (w : StaticArchive)
    (tail : list byte) :
  signature_bytes order w ++ tail
  = STATIC_MAGIC
      ++ conv_data order DWORD (generalPurposeField w)
      ++ conv_data order QWORD (fileCount w)
      ++ [to_char (SizeMode_to_N (sizeMode w));
          to_char (N.b2n (writeCrc w))] ++ tail.
Proof.
  unfold signature_bytes. now rewrite <- !app_assoc.
Qed.

(** The constructors read nothing from the file: a handle made over a
    file that another handle signed has the size mode of its argument
    and counts no file.  A [loadSignature] on it then brings back the
    writer's size mode, checksum flag and general purpose field (32
    bits), keeps the mode it was opened with, and still counts no
    file. *)
Theorem reopen_then_loadSignature (order : ByteOrder) (writer : StaticArchive)
    (gpf0 : N) (checks0 : bool) (mode' : Mode) (sizeMode' : SizeMode) :
  failed (stream writer) = false ->
  let file :=
    mkStream (content (stream (snd (writeSignature order writer)))) 0 false in
  let opened :=
    StaticArchive_path_mode_size gpf0 checks0 file mode' sizeMode' in
  let loaded := loadSignature order opened in
  getSizeMode opened = sizeMode'
  /\ getFileCount opened = 0
  /\ getWriteCrc opened = true
  /\ fst loaded = Some tt
  /\ getSizeMode (snd loaded) = sizeMode writer
  /\ getWriteCrc (snd loaded) = writeCrc writer
  /\ generalPurposeField (snd loaded)
     = generalPurposeField writer mod 2 ^ 32
  /\ getFileCount (snd loaded) = 0
  /\ getMode (snd loaded) = mode'.
Proof.
  intros Hf file opened loaded.
  split; [reflexivity|]. split; [reflexivity|]. split; [reflexivity|].
  subst loaded.
  rewrite (loadSignature_run order opened STATIC_MAGIC
             (conv_data order DWORD (generalPurposeField writer))
             (conv_data order QWORD (fileCount writer))
             (skipn 22 (content (stream writer)))
             (to_char (SizeMode_to_N (sizeMode writer)))
             (to_char (N.b2n (writeCrc writer)))
             (sizeMode writer)).
  - cbn [fst snd getSizeMode getWriteCrc getFileCount getMode
           sizeMode writeCrc generalPurposeField fileCount
           mode].
    rewrite conv_value_conv_data.
    repeat split. now destruct (writeCrc writer).
  - reflexivity.
  - unfold opened, file.
    rewrite writeSignature_run by exact Hf.
    unfold StaticArchive_path_mode_size, setup, bind, set_stream, set_mode,
      set_sizeMode, default_members.
    cbn [snd stream content].
    apply signature_bytes_split.
  - reflexivity.
  - apply length_conv_data.
  - apply length_conv_data.
  - now destruct (sizeMode writer).
Qed.

Lemma reopen_then_loadSignature_witness :
  let file :=
    mkStream
      (content (stream (snd (writeSignature BigEndian three_entries))))
      0 false in
  let opened := StaticArchive_path_mode_size 9 false file ModeRead SizeMode64 in
  let loaded := loadSignature BigEndian opened in
  getSizeMode opened = SizeMode64
  /\ getFileCount opened = 0
  /\ getWriteCrc opened = true
  /\ fst loaded = Some tt
  /\ getSizeMode (snd loaded) = sizeMode three_entries
  /\ getWriteCrc (snd loaded) = writeCrc three_entries
  /\ generalPurposeField (snd loaded)
     = generalPurposeField three_entries mod 2 ^ 32
  /\ getFileCount (snd loaded) = 0
  /\ getMode (snd loaded) = ModeRead.
Proof.
  apply (reopen_then_loadSignature BigEndian three_entries 9 false
           ModeRead SizeMode64).
  reflexivity.
Defined.



(** Writing the signature a second time changes nothing: the handle and
    the file are those the first call left. *)
Theorem writeSignature_twice (order : ByteOrder) (this : StaticArchive) :
  failed (stream this) = false ->
  writeSignature order (snd (writeSignature order this))
  = writeSignature order this.
Proof.
  intro Hf.
  rewrite (writeSignature_run order this Hf).
  cbn [snd set_stream].
  rewrite writeSignature_run by reflexivity.
  cbn [snd set_stream stream content generalPurposeField checks
         sizeMode mode fileCount writeCrc closed].
  pose proof (length_signature_bytes order this) as L.
  f_equal. f_equal. f_equal.
  change (signature_bytes order
            (mkStaticArchive (generalPurposeField this) (checks this)
               (mkStream
                  (signature_bytes order this
                     ++ skipn 22 (content (stream this))) 22 false)
               (sizeMode this) (mode this) (fileCount this)
               (writeCrc this) (closed this)))
    with (signature_bytes order this).
  f_equal. rewrite <- L at 1. apply skipn_length_app.
Qed.

Lemma writeSignature_twice_witness :
  writeSignature LittleEndian (snd (writeSignature LittleEndian three_entries))
  = writeSignature LittleEndian three_entries.
Proof.
  apply (writeSignature_twice LittleEndian three_entries). reflexivity.
Defined.

(* ===================================================================== *)
(** ** checkSignature on a signed file and on a short file *)
(* ===================================================================== *)




(** On a file shorter than eight bytes the read comes up short: the
    stream is left in the failed state, and the comparison runs over the
    bytes of the file followed by what the local buffer happened to
    hold.  The answer is [false] exactly when those eight bytes spell
    the magic constant. *)
Theorem checkSignature_short_file (buffer0 : list byte)
    (this : StaticArchive) :
  failed (stream this) = false ->
  (length (content (stream this)) < QWORD)%nat ->
  length buffer0 = QWORD ->
  let file := content (stream this) in
  exists b,
    fst (checkSignature buffer0 this) = Some b
    /\ (b = false <-> file ++ skipn (length file) buffer0 = STATIC_MAGIC)
    /\ failed (stream (snd (checkSignature buffer0 this))) = true.
Proof.
  intros Hf Hl Hb file.
  unfold checkSignature, bind, ret, seekg, stream_read, set_stream,
    fstream_seek, fstream_read.
  rewrite Hf. cbn [stream failed content pos snd fst skipn].
  fold file. unfold QWORD in *.
  rewrite (firstn_all2 (n := 8) file) by (unfold file; lia).
  rewrite (firstn_all2 (n := 8) buffer0) by lia.
  cbn [fst snd stream failed].
  destruct (strncmp_no_NUL STATIC_MAGIC (fill buffer0 file))
    as [z [Hz Hiff]].
  - unfold fill. rewrite length_app, length_skipn, Hb.
    unfold file. cbn [length STATIC_MAGIC]. lia.
  - simpl. intuition discriminate.
  - change (length STATIC_MAGIC) with 8%nat in Hz. rewrite Hz.
    exists (bool_of_int z). split; [reflexivity|]. split.
    + unfold bool_of_int. rewrite negb_false_iff, Z.eqb_eq, Hiff.
      unfold fill. split; intro H; now symmetry.
    + apply Nat.ltb_lt. exact Hl.
Qed.

Lemma checkSignature_short_file_witness :
  let file := content (stream fresh16) in
  exists b,
    fst (checkSignature STATIC_MAGIC fresh16) = Some b
    /\ (b = false
        <-> file ++ skipn (length file) STATIC_MAGIC = STATIC_MAGIC)
    /\ failed (stream (snd (checkSignature STATIC_MAGIC fresh16))) = true.
Proof.
  apply (checkSignature_short_file STATIC_MAGIC fresh16).
  - reflexivity.
  - simpl. unfold QWORD. lia.
  - reflexivity.
Defined.

(* ===================================================================== *)
(** ** Streams that have failed and files that end early *)
(* ===================================================================== *)

(** On a stream that is in the failed state (the file could not be
    opened, an earlier read came up short) [writeSignature] and
    [writeheader] write nothing, change nothing and signal nothing. *)
Theorem writes_on_failed_stream (order : ByteOrder) (this : StaticArchive)
    (name : list byte) (crc dataSize : N) :
  failed (stream this) = true ->
  (length name <= 256)%nat ->
  writeSignature order this = (tt, this)
  /\ writeheader order name crc dataSize this = (inr tt, this).
Proof.
  intros Hf Hn.
  destruct this as [g c [ct p f] sm m fc w cl]. cbn in Hf. subst f.
  split.
  - reflexivity.
  - unfold writeheader.
    replace (256 <? length name)%nat with false
      by (symmetry; apply Nat.ltb_ge; exact Hn).
    unfold bind, ret, stream_put, stream_write, fstream_put, fstream_write.
    reflexivity.
Qed.

Lemma writes_on_failed_stream_witness :
  let this :=
    mkStaticArchive 0 false (mkStream [] 0 true) SizeMode64 ModeCreate 0
      true false in
  writeSignature LittleEndian this = (tt, this)
  /\ writeheader LittleEndian a_txt 0 5 this = (inr tt, this).
Proof.
  apply (writes_on_failed_stream LittleEndian
           (mkStaticArchive 0 false (mkStream [] 0 true) SizeMode64
              ModeCreate 0 true false) a_txt 0 5).
  - reflexivity.
  - simpl. lia.
Defined.

(** A name longer than 256 bytes: the exception carries the length of
    the name, and the handle and the file are as they were (the throw
    comes before the first write). *)
Theorem writeheader_throw_leaves_handle (order : ByteOrder)
    (this : StaticArchive) (name : list byte) (crc dataSize : N) :
  (256 < length name)%nat ->
  exists e,
    writeheader order name crc dataSize this = (inl e, this)
    /\ exception_size e = N.of_nat (length name).
Proof.
  intro Hn. unfold writeheader.
  replace (256 <? length name)%nat with true
    by (symmetry; apply Nat.ltb_lt; exact Hn).
  eexists. split; reflexivity.
Qed.

Lemma writeheader_throw_leaves_handle_witness :
  exists e,
    writeheader LittleEndian (repeat "a"%byte 257) 0 0 fresh16
    = (inl e, fresh16)
    /\ exception_size e = N.of_nat (length (repeat "a"%byte 257)).
Proof.
  apply (writeheader_throw_leaves_handle LittleEndian fresh16
           (repeat "a"%byte 257) 0 0).
  rewrite repeat_length. lia.
Defined.







(* ===================================================================== *)
(** ** readHeader: where it stops, and the end of the file *)
(* ===================================================================== *)

(** Over a complete header [readHeader] takes the length byte, the name,
    four bytes and the size field of the handle's size mode, and no byte
    more: the stream stands right behind the size field and has not
    failed. *)
Theorem readHeader_stops_behind_size_field (order : ByteOrder)
    (mem : list byte) (this : StaticArchive) (nm crc4 sz tail : list byte) :
  failed (stream this) = false ->
  remaining (stream this)
    = to_char (N.of_nat (length nm)) :: nm ++ crc4 ++ sz ++ tail ->
  (length nm <= 255)%nat ->
  length crc4 = DWORD ->
  length sz = dataSize_width (sizeMode this) ->
  let after := snd (readHeader order mem this) in
  remaining (stream after) = tail
  /\ failed (stream after) = false
  /\ pos (stream after)
     = (pos (stream this) + 1 + length nm + 4
        + dataSize_width (sizeMode this))%nat.
Proof.
  intros Hf Hr Hn Hc Hs after. subst after.
  rewrite (readHeader_run order mem this nm crc4 sz tail Hf Hr Hn Hc Hs).
  cbn [snd]. split; [|split].
  - rewrite remaining_skip, Hr.
    replace (1 + length nm + DWORD + dataSize_width (sizeMode this))%nat
      with (length (to_char (N.of_nat (length nm)) :: nm ++ crc4 ++ sz))
      by (cbn [length]; rewrite !length_app, Hc, Hs; lia).
    replace (to_char (N.of_nat (length nm)) :: nm ++ crc4 ++ sz ++ tail)
      with ((to_char (N.of_nat (length nm)) :: nm ++ crc4 ++ sz) ++ tail)
      by (cbn [app]; now rewrite <- !app_assoc).
    apply skipn_length_app.
  - exact Hf.
  - unfold skip, advance. cbn [snd set_stream stream pos]. unfold DWORD. lia.
Qed.

Lemma readHeader_stops_behind_size_field_witness :
  let after := snd (readHeader LittleEndian [] header_with_NUL) in
  remaining (stream after) = []
  /\ failed (stream after) = false
  /\ pos (stream after)
     = (pos (stream header_with_NUL) + 1 + length ["a"; x00; "b"]%byte + 4
        + dataSize_width (sizeMode header_with_NUL))%nat.
Proof.
  apply (readHeader_stops_behind_size_field LittleEndian [] header_with_NUL
           ["a"; x00; "b"]%byte [x00; x00; x00; x00] [x05; x00; x00; x00] []);
    try reflexivity.
  simpl. lia.
Defined.

(** At the end of the file, or on a stream that has failed, [readHeader]
    signals nothing.  [get] returns [EOF], which becomes the length 255;
    no byte reaches the buffer, so the name is what the uninitialised
    buffer held up to its first NUL; the checksum and the size are 0;
    and the stream is left failed. *)
Theorem readHeader_at_end_of_file (order : ByteOrder) (mem : list byte)
    (this : StaticArchive) :
  failed (stream this) = true
  \/ (length (content (stream this)) <= pos (stream this))%nat ->
  fst (readHeader order mem this)
  = option_map (fun n => mkEntryHeader n 0 0) (c_str mem)
  /\ failed (stream (snd (readHeader order mem this))) = true.
Proof.
  intro H.
  destruct this as [g c [ct p f] sm m fc w cl].
  cbn [stream failed content pos] in H.
  assert (E : fstream_get (mkStream ct p f) = (EOF, mkStream ct p true)).
  { unfold fstream_get. cbn [failed content pos].
    destruct H as [->|Hp]; [reflexivity|].
    destruct f; [reflexivity|].
    apply nth_error_None in Hp. now rewrite Hp. }
  unfold readHeader, bind, member, ret, stream_get.
  cbn [stream]. rewrite E.
  destruct order, sm; split; reflexivity.
Qed.

Lemma readHeader_at_end_of_file_witness :
  fst (readHeader LittleEndian ["?"; x00]%byte fresh16)
  = option_map (fun n => mkEntryHeader n 0 0) (c_str ["?"; x00]%byte)
  /\ failed (stream (snd (readHeader LittleEndian ["?"; x00]%byte fresh16)))
     = true.
Proof.
  apply (readHeader_at_end_of_file LittleEndian ["?"; x00]%byte fresh16).
  right. simpl. lia.
Defined.

(* ===================================================================== *)
(** ** A header written by writeheader, read back by readHeader *)
(* ===================================================================== *)

Lemma firstn_le_bytes (w n : nat) (v : N) :
  (w <= n)%nat -> firstn w (le_bytes n v) = le_bytes w v.
Proof.
  revert n v; induction w as [|w IH]; intros n v Hle; [reflexivity|].
  destruct n as [|n]; [lia|].
  cbn [le_bytes firstn]. f_equal. apply IH. lia.
Qed.

Lemma skipn_le_bytes (w n : nat) (v : N) :
  skipn w (le_bytes n v) = le_bytes (n - w) (v / 256 ^ N.of_nat w).
Proof.
  revert n v; induction w as [|w IH]; intros n v.
  - cbn [skipn]. rewrite Nat.sub_0_r. cbn. now rewrite N.div_1_r.
  - destruct n as [|n]; [reflexivity|].
    cbn [le_bytes skipn Nat.sub]. rewrite IH.
    rewrite Nat2N.inj_succ, N.pow_succ_r', N.Div0.div_div.
    reflexivity.
Qed.

(** The integer that the first [w] of the eight bytes of [conv<uint64_t>]
    spell: the low end of the value on a little-endian host, the high
    end on a big-endian one. *)
Lemma conv_value_firstn_QWORD (order : ByteOrder) (w : nat) (v : N) :
  (w <= QWORD)%nat ->
  conv_value order (firstn w (conv_data order QWORD v))
  = match order with
    | LittleEndian => v mod 256 ^ N.of_nat w
    | BigEndian =>
        (v / 256 ^ N.of_nat (QWORD - w)) mod 256 ^ N.of_nat w
    end.
Proof.
  intro Hw. destruct order; cbn [conv_value conv_data].
  - rewrite firstn_le_bytes by exact Hw. apply le_value_le_bytes.
  - rewrite firstn_rev, rev_involutive, length_le_bytes, skipn_le_bytes.
    replace (QWORD - (QWORD - w))%nat with w by lia.
    apply le_value_le_bytes.
Qed.

(** The handle after [writeheader] put a header at the end of the file
    and the stream was set back to where the header begins. *)
Lemma written_header_back (order : ByteOrder) (this : StaticArchive)
    (name : list byte) (crc dataSize : N) :
  (length name <= 256)%nat ->
  failed (stream this) = false ->
  pos (stream this) = length (content (stream this)) ->
  let back :=
    snd (seekg (pos (stream this))
           (snd (writeheader order name crc dataSize this))) in
  failed (stream back) = false
  /\ sizeMode back = sizeMode this
  /\ remaining (stream back)
     = to_char (N.of_nat (length name)) :: name
         ++ conv_data order DWORD crc ++ conv_data order QWORD dataSize.
Proof.
  intros Hn Hf Hp back. subst back.
  rewrite writeheader_run by assumption.
  unfold extended, seekg, fstream_seek, remaining.
  cbn [snd set_stream stream failed content pos sizeMode].
  split; [reflexivity|]. split; [reflexivity|].
  rewrite Hp. apply skipn_length_app.
Qed.

(** In 64-bit mode a header goes through [writeheader] and [readHeader]
    unchanged, for a name of at most 255 bytes without NUL that finds a
    NUL right behind its buffer: the name, the checksum (32 bits) and
    the size (64 bits) come back, and the stream stands at the end of
    the header, where the payload begins. *)
Theorem writeheader_readHeader_SizeMode64 (order : ByteOrder)
    (mem : list byte) (this : StaticArchive) (name : list byte)
    (crc dataSize : N) :
  sizeMode this = SizeMode64 ->
  (length name <= 255)%nat ->
  ~ In x00 name ->
  hd_error (skipn (length name) mem) = Some x00 ->
  failed (stream this) = false ->
  pos (stream this) = length (content (stream this)) ->
  let back :=
    snd (seekg (pos (stream this))
           (snd (writeheader order name crc dataSize this))) in
  fst (readHeader order mem back)
  = Some (mkEntryHeader name (crc mod 2 ^ 32) (dataSize mod 2 ^ 64))
  /\ remaining (stream (snd (readHeader order mem back))) = [].
Proof.
  intros Hm Hn Hnul Hmem Hf Hp back.
  destruct (written_header_back order this name crc dataSize)
    as (Hfb & Hmb & Hrb); [lia|assumption|assumption|].
  fold back in Hfb, Hmb, Hrb.
  assert (Hcs : c_str (fill mem name) = Some name).
  { unfold fill. destruct (skipn (length name) mem) as [|b rest];
      [discriminate|]. cbn in Hmem. injection Hmem as ->.
    now apply c_str_app_NUL. }
  assert (Hrb' : remaining (stream back)
                 = to_char (N.of_nat (length name)) :: name
                     ++ conv_data order DWORD crc
                     ++ conv_data order QWORD dataSize ++ []).
  { now rewrite app_nil_r. }
  rewrite (readHeader_run order mem back name
             (conv_data order DWORD crc) (conv_data order QWORD dataSize) []
             Hfb Hrb' Hn (length_conv_data _ _ _))
    by (rewrite Hmb, Hm; apply length_conv_data).
  cbn [fst snd]. rewrite Hcs, Hmb, Hm. cbn [option_map].
  rewrite !conv_value_conv_data. split; [reflexivity|].
  rewrite remaining_skip, Hrb'.
  replace (1 + length name + DWORD + dataSize_width SizeMode64)%nat
    with (length (to_char (N.of_nat (length name)) :: name
                    ++ conv_data order DWORD crc
                    ++ conv_data order QWORD dataSize ++ []))
    by (cbn [length]; rewrite !length_app, !length_conv_data;
        cbn [length dataSize_width]; lia).
  apply skipn_all.
Qed.

Lemma writeheader_readHeader_SizeMode64_witness :
  let this :=
    mkStaticArchive 0 false empty_file SizeMode64 ModeCreate 0 true false in
  let back :=
    snd (seekg (pos (stream this))
           (snd (writeheader BigEndian a_txt 0xaabbccdd 5 this))) in
  fst (readHeader BigEndian (repeat x00 8) back)
  = Some (mkEntryHeader a_txt (0xaabbccdd mod 2 ^ 32) (5 mod 2 ^ 64))
  /\ remaining (stream (snd (readHeader BigEndian (repeat x00 8) back))) = [].
Proof.
  apply (writeheader_readHeader_SizeMode64 BigEndian (repeat x00 8)
           (mkStaticArchive 0 false empty_file SizeMode64 ModeCreate 0 true
              false) a_txt 0xaabbccdd 5); try reflexivity.
  - simpl. lia.
  - simpl. intuition discriminate.
Defined.

(** In 16- and 32-bit mode the two functions disagree on the header:
    [writeheader] has put eight size bytes, [readHeader] takes two or
    four.  The name and the checksum come back; the size is 0 in 16-bit
    mode, and in 32-bit mode the low half of the value on a
    little-endian host and the high half on a big-endian one; and the
    stream stops six or four bytes short of the payload. *)
Theorem writeheader_readHeader_narrow (order : ByteOrder)
    (mem : list byte) (this : StaticArchive) (name : list byte)
    (crc dataSize : N) :
  sizeMode this <> SizeMode64 ->
  (length name <= 255)%nat ->
  ~ In x00 name ->
  hd_error (skipn (length name) mem) = Some x00 ->
  failed (stream this) = false ->
  pos (stream this) = length (content (stream this)) ->
  let back :=
    snd (seekg (pos (stream this))
           (snd (writeheader order name crc dataSize this))) in
  fst (readHeader order mem back)
  = Some (mkEntryHeader name (crc mod 2 ^ 32)
            match sizeMode this, order with
            | SizeMode16, _ => 0
            | _, LittleEndian => dataSize mod 2 ^ 32
            | _, BigEndian => (dataSize / 2 ^ 32) mod 2 ^ 32
            end)
  /\ length (remaining (stream (snd (readHeader order mem back))))
     = (QWORD - dataSize_width (sizeMode this))%nat.
Proof.
  intros Hm Hn Hnul Hmem Hf Hp back.
  destruct (written_header_back order this name crc dataSize)
    as (Hfb & Hmb & Hrb); [lia|assumption|assumption|].
  fold back in Hfb, Hmb, Hrb.
  assert (Hcs : c_str (fill mem name) = Some name).
  { unfold fill. destruct (skipn (length name) mem) as [|b rest];
      [discriminate|]. cbn in Hmem. injection Hmem as ->.
    now apply c_str_app_NUL. }
  set (w := dataSize_width (sizeMode this)).
  assert (Hw : (w <= QWORD)%nat).
  { unfold w. destruct (sizeMode this); cbn; unfold WORD, DWORD, QWORD; lia. }
  set (X := conv_data order QWORD dataSize) in *.
  assert (LX : length X = QWORD) by apply length_conv_data.
  assert (Hrb' : remaining (stream back)
                 = to_char (N.of_nat (length name)) :: name
                     ++ conv_data order DWORD crc
                     ++ firstn w X ++ skipn w X).
  { now rewrite firstn_skipn. }
  assert (Lsz : length (firstn w X) = dataSize_width (sizeMode back)).
  { rewrite Hmb, length_firstn, LX. fold w. lia. }
  rewrite (readHeader_run order mem back name
             (conv_data order DWORD crc) (firstn w X) (skipn w X)
             Hfb Hrb' Hn (length_conv_data _ _ _) Lsz).
  cbn [fst snd]. rewrite Hcs, Hmb. cbn [option_map].
  rewrite conv_value_conv_data. split.
  - unfold X. rewrite conv_value_firstn_QWORD by exact Hw.
    unfold w. destruct (sizeMode this), order;
      try reflexivity; contradiction.
  - rewrite remaining_skip, Hrb'.
    replace (1 + length name + DWORD + dataSize_width (sizeMode this))%nat
      with (length (to_char (N.of_nat (length name)) :: name
                      ++ conv_data order DWORD crc ++ firstn w X))
      by (cbn [length]; rewrite !length_app, length_conv_data, Lsz, Hmb;
          lia).
    replace (to_char (N.of_nat (length name)) :: name
               ++ conv_data order DWORD crc ++ firstn w X ++ skipn w X)
      with ((to_char (N.of_nat (length name)) :: name
               ++ conv_data order DWORD crc ++ firstn w X) ++ skipn w X)
      by (cbn [app]; now rewrite <- !app_assoc).
    rewrite skipn_length_app, length_skipn, LX. reflexivity.
Qed.

Lemma writeheader_readHeader_narrow_witness :
  let this :=
    mkStaticArchive 0 false empty_file SizeMode32 ModeCreate 0 true false in
  let back :=
    snd (seekg (pos (stream this))
           (snd (writeheader BigEndian a_txt 0xaabbccdd 5 this))) in
  fst (readHeader BigEndian (repeat x00 8) back)
  = Some (mkEntryHeader a_txt (0xaabbccdd mod 2 ^ 32)
            match sizeMode this, BigEndian with
            | SizeMode16, _ => 0
            | _, LittleEndian => 5 mod 2 ^ 32
            | _, BigEndian => (5 / 2 ^ 32) mod 2 ^ 32
            end)
  /\ length (remaining
               (stream (snd (readHeader BigEndian (repeat x00 8) back))))
     = (QWORD - dataSize_width (sizeMode this))%nat.
Proof.
  apply (writeheader_readHeader_narrow BigEndian (repeat x00 8)
           (mkStaticArchive 0 false empty_file SizeMode32 ModeCreate 0 true
              false) a_txt 0xaabbccdd 5); try reflexivity.
  - discriminate.
  - simpl. lia.
  - simpl. intuition discriminate.
Defined.

(** A name of 256 bytes is written with the length byte 0.  Read back in
    64-bit mode, the header has an empty name buffer (the name is what
    the memory behind it spells), and the first four and the next eight
    bytes of the name are taken for the checksum and the size. *)
Theorem writeheader_256_bytes_read_back (order : ByteOrder)
    (mem : list byte) (this : StaticArchive) (n4 n8 rest : list byte)
    (crc dataSize : N) :
  let name := n4 ++ n8 ++ rest in
  sizeMode this = SizeMode64 ->
  length n4 = DWORD ->
  length n8 = QWORD ->
  length name = 256%nat ->
  failed (stream this) = false ->
  pos (stream this) = length (content (stream this)) ->
  let back :=
    snd (seekg (pos (stream this))
           (snd (writeheader order name crc dataSize this))) in
  fst (readHeader order mem back)
  = option_map
      (fun n => mkEntryHeader n (conv_value order n4) (conv_value order n8))
      (c_str mem).
Proof.
  intros name Hm L4 L8 Ln Hf Hp back.
  destruct (written_header_back order this name crc dataSize)
    as (Hfb & Hmb & Hrb); [lia|assumption|assumption|].
  fold back in Hfb, Hmb, Hrb.
  assert (Hrb' : remaining (stream back)
                 = to_char (N.of_nat (length (@nil byte))) :: []
                     ++ n4 ++ n8
                     ++ (rest ++ conv_data order DWORD crc
                           ++ conv_data order QWORD dataSize)).
  { rewrite Hrb, Ln. unfold name. cbn [app length].
    rewrite <- !app_assoc. reflexivity. }
  rewrite (readHeader_run order mem back [] n4 n8 _ Hfb Hrb')
    by (first [exact L4 | rewrite Hmb, Hm; exact L8 | cbn; lia]).
  cbn [fst]. rewrite Hmb, Hm. reflexivity.
Qed.

Lemma writeheader_256_bytes_read_back_witness :
  let this :=
    mkStaticArchive 0 false empty_file SizeMode64 ModeCreate 0 true false in
  let name := repeat x01 4 ++ repeat x02 8 ++ repeat "a"%byte 244 in
  let back :=
    snd (seekg (pos (stream this))
           (snd (writeheader LittleEndian name 7 5 this))) in
  fst (readHeader LittleEndian [x00] back)
  = option_map
      (fun n =>
         mkEntryHeader n (conv_value LittleEndian (repeat x01 4))
           (conv_value LittleEndian (repeat x02 8)))
      (c_str [x00]).
Proof.
  apply (writeheader_256_bytes_read_back LittleEndian [x00]
           (mkStaticArchive 0 false empty_file SizeMode64 ModeCreate 0 true
              false) (repeat x01 4) (repeat x02 8) (repeat "a"%byte 244) 7 5);
    reflexivity.
Defined.

(* ===================================================================== *)
(** ** The option macros and the decoded flags *)
(* ===================================================================== *)

(** Whatever set of the five [STATIC_FLAG_*] macros a caller combines,
    the flags the constructors decode from it are all clear, [verbose]
    included: the one bit that reaches the struct is bit 0, and no
    macro has it. *)
Theorem flags_macros_reach_no_option (v o i w d : bool) :
  let flags :=
    to_char
      (N.lor (if v then STATIC_FLAG_VERBOSE else 0)
         (N.lor (if o then STATIC_FLAG_ONLY_NAMES else 0)
            (N.lor (if i then STATIC_FLAG_IGNORE_ERRORS else 0)
               (N.lor (if w then STATIC_FLAG_WRITE_CRC32 else 0)
                  (if d then STATIC_FLAG_DISABLE_CHECKS else 0))))) in
  Flags.init flags = Flags.mkFlagsStruct false false false false false
  /\ (forall other : byte,
        Flags.verbose (Flags.init other) = N.testbit (Byte.to_N other) 0).
Proof.
  split.
  - destruct v, o, i, w, d; reflexivity.
  - intro other. unfold Flags.init. cbn [Flags.verbose].
    now rewrite N.bit0_odd.
Qed.
